(** * Samsome whale watcher: the trade classifier, the rolling store and the
    chart engine

    A shallow embedding of [src/backend/whaleDetector.js] (class
    [WhaleDetector]) and of the indicator functions of the trading UI
    ([calculateSMA], [calculateEMA], [calculateRSI]), with the properties
    the specification states about them.

    JavaScript numbers are IEEE 754 binary64 values, which is what Rocq's
    primitive [float] is: prices, quantities and every value computed from
    them are floats, with the source's operators.  Instants (values of
    [Date.now()] and the [T] field of a trade) are integral milliseconds
    and are kept in [Z]. *)

From Stdlib Require Import String ZArith List Bool Lia Sorted Permutation.
From Stdlib Require Import Floats.FloatClass Floats.PrimFloat Floats.SpecFloat.
From Stdlib Require Import Floats.FloatOps Floats.FloatAxioms.
From Stdlib Require Uint63.
Import ListNotations.

Set Implicit Arguments.

(** ** JavaScript values and operators used by the source *)

Module JS.

(** [a > b] on numbers: false as soon as an operand is NaN. *)
Definition gt (a b : float) : bool := (b <? a)%float.

(** [Math.max(a, b)]: NaN if an operand is NaN, and [+0] above [-0]. *)
Definition Math_max (a b : float) : float :=
  if is_nan a || is_nan b then nan
  else if (a <? b)%float then b
  else if (b <? a)%float then a
  else match classify a with
       | NZero => b
       | _ => a
       end.

(** A small non-negative integer (an array length, a period) as a number. *)
Definition of_nat (n : nat) : float := of_uint63 (Uint63.of_Z (Z.of_nat n)).

(** [Array.prototype.slice(-n)]: the last [n] elements; [slice(-0)] is
    [slice(0)], the whole array. *)
Definition slice_last {A} (n : nat) (l : list A) : list A :=
  match n with
  | O => l
  | _ => skipn (length l - n) l
  end.

(** Errors the embedded code can throw. *)
Inductive Error := TypeError.

(** How a call completes: with a value, or by throwing. *)
Inductive Completion (A : Type) :=
| Normal (a : A)
| Throw (e : Error).
Arguments Throw {A} e.

Definition fails {A} (c : Completion A) : Prop := exists e, c = Throw e.

(** A [Map]: keys in insertion order; [set] on a present key replaces the
    value in place, on a new key it appends. *)
Section MapZ.
Variable V : Type.
Definition Map := list (Z * V).

Fixpoint has (k : Z) (m : Map) : bool :=
  match m with
  | [] => false
  | (k', _) :: m' => if (k =? k')%Z then true else has k m'
  end.

Fixpoint get (k : Z) (m : Map) : option V :=
  match m with
  | [] => None
  | (k', v) :: m' => if (k =? k')%Z then Some v else get k m'
  end.

Fixpoint set (k : Z) (v : V) (m : Map) : Map :=
  match m with
  | [] => [(k, v)]
  | (k', v') :: m' =>
      if (k =? k')%Z then (k', v) :: m' else (k', v') :: set k v m'
  end.

Definition values (m : Map) : list V := map snd m.
End MapZ.

End JS.

Import JS.

Unset Implicit Arguments.

(** ** The detector: data *)

(** A raw trade as [processTrade] reads it.  [p] and [q] are the numbers
    [parseFloat] returns for the record's [p] and [q] fields: NaN for a
    field that is missing or does not start with a number.  [T] is the
    event time of the record, [None] when it has none. *)
Record RawTrade := {
  p : float;
  q : float;
  T : option Z
}.

(** The record [processTrade] builds, stores and returns. *)
Record TradeRecord := {
  price : float;
  quantity : float;
  tradeValue : float;
  timestamp : Z;
  isWhale : bool
}.

Record Metrics := {
  totalVolume24h : float;
  whaleCount : float;
  maxWhaleAmount : float;
  lastWhaleTime : option Z;
  averageWhaleSize : float
}.

Record WhaleDetector := {
  tradeHistory : list TradeRecord;
  lastPrice : float;
  aggregatedVolume : float;
  lastVolumeResetTime : Z;
  metrics : Metrics
}.

Definition WHALE_THRESHOLD : float := 500000%float.
Definition MAX_HISTORY : nat := 3600.

(** The clock readings of one [processTrade] call, one per place where the
    source reads the clock: the fallback of the timestamp, [new Date()] in
    [onWhaleDetected], and the reading before the volume reset. *)
Record Ticks := {
  tick_timestamp : Z;
  tick_whale : Z;
  tick_reset : Z
}.

Definition zero_metrics : Metrics :=
  {| totalVolume24h := 0; whaleCount := 0; maxWhaleAmount := 0;
     lastWhaleTime := None; averageWhaleSize := 0 |}.

(** [new WhaleDetector()], the clock reading [now]. *)
Definition new_WhaleDetector (now : Z) : WhaleDetector :=
  {| tradeHistory := [];
     lastPrice := 0;
     aggregatedVolume := 0;
     lastVolumeResetTime := now;
     metrics := zero_metrics |}.

(** ** The detector: operations *)

(** [trade.T || Date.now()]: a missing or zero [T] is falsy. *)
Definition timestamp_of (raw : RawTrade) (now : Z) : Z :=
  match T raw with
  | Some t => if (t =? 0)%Z then now else t
  | None => now
  end.

Definition onWhaleDetected (m : Metrics) (trade : TradeRecord) (now : Z)
  : Metrics :=
  let count := (whaleCount m + 1)%float in
  let mx := Math_max (maxWhaleAmount m) (tradeValue trade) in
  {| totalVolume24h := totalVolume24h m;
     whaleCount := count;
     maxWhaleAmount := mx;
     lastWhaleTime := Some now;
     averageWhaleSize := (mx / count)%float |}.

(** The record built from a raw trade (lines 42 to 62 of the source). *)
Definition tradeRecord_of (raw : RawTrade) (tk : Ticks) : TradeRecord :=
  let value := (p raw * q raw)%float in
  {| price := p raw;
     quantity := q raw;
     tradeValue := value;
     timestamp := timestamp_of raw (tick_timestamp tk);
     isWhale := gt value WHALE_THRESHOLD |}.

(** [push] followed by one [shift] when the length exceeds [MAX_HISTORY]. *)
Definition push_bounded (h : list TradeRecord) (r : TradeRecord)
  : list TradeRecord :=
  let h1 := h ++ [r] in
  if (MAX_HISTORY <? length h1)%nat then tl h1 else h1.

(** The body of [processTrade] on a record object. *)
Definition processTrade_body (d : WhaleDetector) (raw : RawTrade) (tk : Ticks)
  : WhaleDetector * TradeRecord :=
  let r := tradeRecord_of raw tk in
  let volume := (aggregatedVolume d + q raw)%float in
  let history := push_bounded (tradeHistory d) r in
  let m := if gt (tradeValue r) WHALE_THRESHOLD
           then onWhaleDetected (metrics d) r (tick_whale tk)
           else metrics d in
  let now := tick_reset tk in
  let expired := (60000 <? now - lastVolumeResetTime d)%Z in
  ({| tradeHistory := history;
      lastPrice := p raw;
      aggregatedVolume := if expired then 0%float else volume;
      lastVolumeResetTime := if expired then now else lastVolumeResetTime d;
      metrics := m |}, r).

(** [processTrade(trade)].  [None] is a [null] or [undefined] argument, on
    which reading [trade.p] throws before anything is changed. *)
Definition processTrade (d : WhaleDetector) (trade : option RawTrade)
  (tk : Ticks) : Completion (WhaleDetector * TradeRecord) :=
  match trade with
  | None => Throw TypeError
  | Some raw => Normal (processTrade_body d raw tk)
  end.

Definition reset (d : WhaleDetector) : WhaleDetector :=
  {| tradeHistory := [];
     lastPrice := lastPrice d;
     aggregatedVolume := 0;
     lastVolumeResetTime := lastVolumeResetTime d;
     metrics := zero_metrics |}.

(** The message handler of the server: each event goes through
    [processTrade]; an event on which it throws is caught, logged and
    skipped. *)
Definition on_message (d : WhaleDetector) (ev : option RawTrade * Ticks)
  : WhaleDetector :=
  match processTrade d (fst ev) (snd ev) with
  | Normal (d', _) => d'
  | Throw _ => d
  end.

Definition feed (d : WhaleDetector) (evs : list (option RawTrade * Ticks))
  : WhaleDetector :=
  fold_left on_message evs d.

(** The records a sequence of events produces, in arrival order. *)
Definition records_of (evs : list (option RawTrade * Ticks))
  : list TradeRecord :=
  flat_map (fun ev => match fst ev with
                      | Some raw => [tradeRecord_of raw (snd ev)]
                      | None => []
                      end) evs.

(** ** The chart aggregator *)

(** One bucket of [getChartData]; the fields are those of the object the
    source stores in its [Map]. *)
Module Bucket.
Record t := {
  price : float;
  totalVolume : float;
  count : nat;
  timestamp : Z
}.
End Bucket.

Record ChartData := {
  labels : list string;
  prices : list string;
  volumes : list string;
  timestamps : list Z
}.

(** [Math.floor(timestamp / 60000) * 60000] on an integral instant.  The
    source computes it in binary64: the quotient is rounded, and the floor
    division on integers below is what it yields as long as the instant is
    below 2^53 in absolute value ([exact_time], which every value of a
    [Date] satisfies); beyond that the source's key is a rounded product
    and the properties of the buckets are stated for exact instants
    only. *)
Definition bucketTime (ts : Z) : Z := (ts / 60000 * 60000)%Z.

(** The body of the [forEach] over the history: a trade inside the window
    creates its bucket when the map has none, then adds its quantity to the
    bucket and overwrites the bucket's price. *)
Definition collect (oneHourAgo : Z) (buckets : Map Bucket.t)
  (trade : TradeRecord) : Map Bucket.t :=
  if (oneHourAgo <=? timestamp trade)%Z then
    let bt := bucketTime (timestamp trade) in
    let buckets1 :=
      if has bt buckets then buckets
      else JS.set bt {| Bucket.price := price trade;
                        Bucket.totalVolume := 0;
                        Bucket.count := 0;
                        Bucket.timestamp := bt |} buckets in
    match get bt buckets1 with
    | Some bucket =>
        JS.set bt {| Bucket.price := price trade;
                     Bucket.totalVolume :=
                       (Bucket.totalVolume bucket + quantity trade)%float;
                     Bucket.count := S (Bucket.count bucket);
                     Bucket.timestamp := Bucket.timestamp bucket |} buckets1
    | None => buckets1
    end
  else buckets.

(** [Array.prototype.sort] with the comparator [a.timestamp - b.timestamp]:
    a stable sort by ascending timestamp. *)
Fixpoint insert_bucket (b : Bucket.t) (l : list Bucket.t) : list Bucket.t :=
  match l with
  | [] => [b]
  | x :: l' =>
      if (Bucket.timestamp b <=? Bucket.timestamp x)%Z then b :: l
      else x :: insert_bucket b l'
  end.

Definition sort_buckets (l : list Bucket.t) : list Bucket.t :=
  fold_right insert_bucket [] l.

(** [sortedBuckets] of the source, for the history [h] at the instant
    [now]. *)
Definition sortedBuckets (h : list TradeRecord) (now : Z) : list Bucket.t :=
  let oneHourAgo := (now - 60 * 60 * 1000)%Z in
  sort_buckets (values (fold_left (collect oneHourAgo) h [])).

(** The snapshot [getMetrics] returns: the spread metrics and the two
    derived fields. *)
Record MetricsSnapshot := {
  spread : Metrics;
  currentPrice : float;
  hourlyVolume : string
}.

Section Rendering.

(** [Number.prototype.toFixed(digits)] and the en-US time label of an
    instant are renderings of the runtime, taken as given. *)
Variable toFixed : nat -> float -> string.
Variable toLocaleTimeString : Z -> string.

Definition getChartData (d : WhaleDetector) (now : Z) : ChartData :=
  match tradeHistory d with
  | [] => {| labels := []; prices := []; volumes := []; timestamps := [] |}
  | _ :: _ =>
      let sb := sortedBuckets (tradeHistory d) now in
      {| labels := map (fun b => toLocaleTimeString (Bucket.timestamp b)) sb;
         prices := map (fun b => toFixed 2 (Bucket.price b)) sb;
         volumes := map (fun b => toFixed 4 (Bucket.totalVolume b)) sb;
         timestamps := map Bucket.timestamp sb |}
  end.

Definition getMetrics (d : WhaleDetector) : MetricsSnapshot :=
  {| spread := metrics d;
     currentPrice := lastPrice d;
     hourlyVolume := toFixed 4 (aggregatedVolume d) |}.

End Rendering.

(** ** Indicators of the trading UI *)

(** [reduce((a, b) => a + b, 0)]. *)
Definition sum (l : list float) : float := fold_left PrimFloat.add l 0%float.

Definition calculateSMA (prices : list float) (period : nat) : option float :=
  if (length prices <? period)%nat then None
  else Some (sum (slice_last period prices) / of_nat period)%float.

(** One round of the loop of [calculateEMA]. *)
Definition ema_step (k : float) (ema price : float) : float :=
  (price * k + ema * (1 - k))%float.

Definition calculateEMA (prices : list float) (period : nat) : option float :=
  if (length prices <? period)%nat then None
  else
    let k := (2 / (of_nat period + 1))%float in
    let ema := (sum (slice_last period prices) / of_nat period)%float in
    Some (fold_left (ema_step k) (skipn period prices) ema).

(** One round of the loop of [calculateRSI] at index [i]; an index outside
    the array reads [undefined], which the subtraction turns into NaN. *)
Definition rsi_step (prices : list float) (acc : float * float) (i : nat)
  : float * float :=
  let diff := (nth i prices nan - nth (i - 1) prices nan)%float in
  if (0 <? diff)%float then ((fst acc + diff)%float, snd acc)
  else (fst acc, (snd acc - diff)%float).

(** [gains] and [losses] when the loop of [calculateRSI] ends. *)
Definition gains_losses (prices : list float) (period : nat) : float * float :=
  fold_left (rsi_step prices) (seq (length prices - period) period)
            (0%float, 0%float).

Definition calculateRSI (prices : list float) (period : nat) : float :=
  if (length prices <? period + 1)%nat then 50%float
  else
    let gl := gains_losses prices period in
    let avgGain := (fst gl / of_nat period)%float in
    let avgLoss := (snd gl / of_nat period)%float in
    let rs := if (avgLoss =? 0)%float then 100%float
              else (avgGain / avgLoss)%float in
    (100 - 100 / (1 + rs))%float.

(** ** The record object behind a raw trade *)

(** A field of the object [JSON.parse] delivers, as far as [parseFloat]
    tells fields apart: a missing field ([undefined]); a primitive (a
    string, a number, a boolean or [null]) with the number [parseFloat]
    returns for it, NaN when it does not start with a number; an object or
    an array, with the number [parseFloat] returns for its string
    conversion, or [None] when it has no primitive conversion (neither
    [toString] nor [valueOf] gives a primitive). *)
Inductive JsField :=
| Absent
| Primitive (parsed : float)
| Object (converted : option float).

(** [parseFloat(field)]: NaN on a missing field, and the TypeError of the
    string conversion on an object that has none. *)
Definition parseFloat (f : JsField) : Completion float :=
  match f with
  | Absent => Normal nan
  | Primitive parsed => Normal parsed
  | Object (Some parsed) => Normal parsed
  | Object None => Throw TypeError
  end.

(** A record object with its [p], [q] and [T] fields; [field_T] is the
    event time of a record that has a numeric one. *)
Record TradeObject := {
  field_p : JsField;
  field_q : JsField;
  field_T : option Z
}.

(** [processTrade] on a record object: lines 42 and 43 convert the price
    and then the quantity, and a conversion that throws ends the call
    before anything is changed; the rest is [processTrade] on the parsed
    record. *)
Definition processTrade_object (d : WhaleDetector) (trade : TradeObject)
  (tk : Ticks) : Completion (WhaleDetector * TradeRecord) :=
  match parseFloat (field_p trade) with
  | Throw e => Throw e
  | Normal parsed_p =>
      match parseFloat (field_q trade) with
      | Throw e => Throw e
      | Normal parsed_q =>
          processTrade d (Some {| p := parsed_p; q := parsed_q;
                                  T := field_T trade |}) tk
      end
  end.

(** The state the message handler is left with after a record object: the
    error of a call that throws is caught and the state stays. *)
Definition on_object (d : WhaleDetector) (trade : TradeObject) (tk : Ticks)
  : WhaleDetector :=
  match processTrade_object d trade tk with
  | Normal (d', _) => d'
  | Throw _ => d
  end.

(** ** Notions the properties are stated with *)

(** An instant that binary64 holds exactly and on which the floor division
    of [getChartData] is computed without rounding: an integer below 2^53
    in absolute value. *)
Definition exact_time (ts : Z) : Prop := (Z.abs ts < 2 ^ 53)%Z.

(** A parsed field the specification accepts: a finite number that is not
    negative. *)
Definition finite_nonneg (x : float) : bool :=
  (0 <=? x)%float && (x <? infinity)%float.

Definition malformed (raw : RawTrade) : bool :=
  negb (finite_nonneg (p raw)) || negb (finite_nonneg (q raw)).

(** The trades of the history that [collect] files under the key [k]: those
    inside the window whose timestamp floors to [k], in arrival order. *)
Definition in_bucket (oneHourAgo k : Z) (t : TradeRecord) : bool :=
  (oneHourAgo <=? timestamp t)%Z && (bucketTime (timestamp t) =? k)%Z.

Definition members (oneHourAgo k : Z) (h : list TradeRecord)
  : list TradeRecord :=
  filter (in_bucket oneHourAgo k) h.

(** The volume accumulated by [+=] from 0 over the quantities, in order. *)
Definition sum_quantities (ts : list TradeRecord) : float :=
  fold_left PrimFloat.add (map quantity ts) 0%float.

Definition summarises (b : Bucket.t) (k : Z) (ts : list TradeRecord) : Prop :=
  Bucket.timestamp b = k
  /\ ts <> []
  /\ Bucket.totalVolume b = sum_quantities ts
  /\ Bucket.count b = length ts
  /\ forall t0, Bucket.price b = price (last ts t0).

Definition collected (oneHourAgo : Z) (h : list TradeRecord)
  (m : Map Bucket.t) : Prop :=
  NoDup (map fst m)
  /\ forall k, match get k m with
               | Some b => summarises b k (members oneHourAgo k h)
               | None => members oneHourAgo k h = []
               end.

Definition ascending (l : list Bucket.t) : Prop :=
  StronglySorted (fun a b => (Bucket.timestamp a <= Bucket.timestamp b)%Z) l.

(** The trade a reader of the specification would call the chronologically
    last of a group: one whose timestamp no other trade of the group
    exceeds. *)
Definition chronologically_last (ts : list TradeRecord) (t : TradeRecord)
  : Prop :=
  In t ts /\ forall t', In t' ts -> (timestamp t' <= timestamp t)%Z.

(** The moving average as the specification words it: the seed is the mean
    of the first [period] closes, and the recurrence runs over the closes
    that follow them. *)
Definition spec_EMA (closes : list float) (period : nat) : option float :=
  if (length closes <? period)%nat then None
  else
    let k := (2 / (of_nat period + 1))%float in
    let seed := (sum (firstn period closes) / of_nat period)%float in
    Some (fold_left (ema_step k) (skipn period closes) seed).

Definition empty_chart : ChartData :=
  {| labels := []; prices := []; volumes := []; timestamps := [] |}.

(** ** Inputs of the examples *)

Definition sample_ticks : Ticks :=
  {| tick_timestamp := 1700000000000; tick_whale := 1700000000000;
     tick_reset := 1700000000000 |}.

(** 3601 events with event times 1, 2, ..., 3601. *)
Definition events_3601 : list (option RawTrade * Ticks) :=
  map (fun i => (Some {| p := 100; q := 1; T := Some (Z.of_nat i) |},
                 sample_ticks))
      (seq 1 3601).

Definition nan_trade : RawTrade := {| p := nan; q := 1; T := None |}.

(** A record object without a price and with the quantity "1". *)
Definition priceless_object : TradeObject :=
  {| field_p := Absent; field_q := Primitive 1; field_T := None |}.

(** A record object whose price is an object without primitive
    conversion. *)
Definition opaque_object : TradeObject :=
  {| field_p := Object None; field_q := Primitive 1; field_T := None |}.

(** Two trades of the same minute that arrive out of order: the later one
    first. *)
Definition out_of_order : list (option RawTrade * Ticks) :=
  [ (Some {| p := 43000; q := 0.5; T := Some 1700000050000%Z |}, sample_ticks);
    (Some {| p := 42000; q := 0.25; T := Some 1700000045000%Z |}, sample_ticks) ].

Definition no_rendering : nat -> float -> string := fun _ _ => EmptyString.
Definition no_label : Z -> string := fun _ => EmptyString.

(** A history of one trade, two hours before the reading of the chart. *)
Definition stale_detector : WhaleDetector :=
  feed (new_WhaleDetector 1700000000000)
       [ (Some {| p := 43000; q := 0.5; T := Some 1700000000000%Z |},
          sample_ticks) ].

(** The sequence of the specification: an ordinary trade of notional value
    100, then one of notional value 600000. *)
Definition two_trades (T1 T2 : option Z) (tk1 tk2 : Ticks)
  : list (option RawTrade * Ticks) :=
  [ (Some {| p := 100; q := 1; T := T1 |}, tk1);
    (Some {| p := 600000; q := 1; T := T2 |}, tk2) ].

Definition late_ticks : Ticks :=
  {| tick_timestamp := 1700000061000; tick_whale := 1700000061000;
     tick_reset := 1700000061001 |}.

(** Fifteen closes that rise by one at each step. *)
Definition rising_closes : list float :=
  [1; 2; 3; 4; 5; 6; 7; 8; 9; 10; 11; 12; 13; 14; 15]%float.

(** ** Runs of the detector *)

(** Whether an event carries a record object. *)
Definition is_record (ev : option RawTrade * Ticks) : bool :=
  match fst ev with
  | Some _ => true
  | None => false
  end.

(** The whale records among those a sequence of events produces. *)
Definition whales_of (evs : list (option RawTrade * Ticks))
  : list TradeRecord :=
  filter isWhale (records_of evs).

(** The trades of a history that [getChartData] keeps at the instant
    [now]. *)
Definition in_window (now : Z) (t : TradeRecord) : bool :=
  (now - 3600000 <=? timestamp t)%Z.

(** A stored record whose derived fields agree with its price and
    quantity. *)
Definition consistent (r : TradeRecord) : Prop :=
  tradeValue r = (price r * quantity r)%float
  /\ isWhale r = gt (tradeValue r) WHALE_THRESHOLD.

(** Two record events that reach the detector 20 and 40 seconds after
    its construction at the instant 1700000000000. *)
Definition early_events : list (option RawTrade * Ticks) :=
  [ (Some {| p := 43000; q := 0.5; T := None |},
     {| tick_timestamp := 1700000020000; tick_whale := 1700000020000;
        tick_reset := 1700000020000 |});
    (Some {| p := 43010; q := 0.25; T := None |},
     {| tick_timestamp := 1700000040000; tick_whale := 1700000040000;
        tick_reset := 1700000040000 |}) ].

(** Closes of a longer chart, and its last three. *)
Definition older_closes : list float := [42000; 42500; 41900]%float.
Definition last_closes : list float := [43000; 43100; 43050]%float.

(** ** The trading UI: candles *)

(** [Math.min(a, b)]: NaN if an operand is NaN, and [-0] below [+0]. *)
Definition Math_min (a b : float) : float :=
  if is_nan a || is_nan b then nan
  else if (a <? b)%float then a
  else if (b <? a)%float then b
  else match classify a with
       | PZero => b
       | _ => a
       end.

(** One candle of [buildCandleData]. *)
Module Candle.
Record t := {
  time : Z;
  open : float;
  high : float;
  low : float;
  close : float;
  volume : float
}.
End Candle.

(** [Math.floor(trade.timestamp / intervalMs) * intervalMs], for a
    positive interval. *)
Definition candleBucketTime (intervalMs ts : Z) : Z :=
  (ts / intervalMs * intervalMs)%Z.

(** The body of the [forEach] of [buildCandleData]: the first trade of a
    bucket opens its candle, a later one moves the extremes, the close and
    the volume. *)
Definition candle_step (intervalMs : Z) (buckets : Map Candle.t)
  (trade : TradeRecord) : Map Candle.t :=
  let bucketTime := candleBucketTime intervalMs (timestamp trade) in
  let key := bucketTime in
  if negb (has key buckets) then
    JS.set key {| Candle.time := (bucketTime / 1000)%Z;
                  Candle.open := price trade;
                  Candle.high := price trade;
                  Candle.low := price trade;
                  Candle.close := price trade;
                  Candle.volume := quantity trade |} buckets
  else
    match get key buckets with
    | Some candle =>
        JS.set key {| Candle.time := Candle.time candle;
                      Candle.open := Candle.open candle;
                      Candle.high := Math_max (Candle.high candle) (price trade);
                      Candle.low := Math_min (Candle.low candle) (price trade);
                      Candle.close := price trade;
                      Candle.volume :=
                        (Candle.volume candle + quantity trade)%float |}
               buckets
    | None => buckets
    end.

(** [sort((a, b) => a.time - b.time)]: a stable sort by ascending time. *)
Fixpoint insert_candle (c : Candle.t) (l : list Candle.t) : list Candle.t :=
  match l with
  | [] => [c]
  | x :: l' =>
      if (Candle.time c <=? Candle.time x)%Z then c :: l
      else x :: insert_candle c l'
  end.

Definition sort_candles (l : list Candle.t) : list Candle.t :=
  fold_right insert_candle [] l.

(** The candles [buildCandleData] computes from the trades received so far
    and the interval in minutes. *)
Definition candles_of (allTrades : list TradeRecord) (currentInterval : Z)
  : list Candle.t :=
  let intervalMs := (currentInterval * 60 * 1000)%Z in
  sort_candles (values (fold_left (candle_step intervalMs) allTrades [])).

(** The globals of the trading UI that [buildCandleData] reads and
    writes. *)
Record TradingUI := {
  allTrades : list TradeRecord;
  candleData : list Candle.t;
  priceHistory : list float;
  currentInterval : Z
}.

(** [buildCandleData], as far as the globals go (the calls that draw the
    series are left out): without trades it returns at once. *)
Definition buildCandleData (ui : TradingUI) : TradingUI :=
  match allTrades ui with
  | [] => ui
  | _ :: _ =>
      let cd := candles_of (allTrades ui) (currentInterval ui) in
      {| allTrades := allTrades ui;
         candleData := cd;
         priceHistory := map Candle.close cd;
         currentInterval := currentInterval ui |}
  end.

(** The trades of [h] that fall into the candle bucket [k], in arrival
    order. *)
Definition candle_group (intervalMs k : Z) (h : list TradeRecord)
  : list TradeRecord :=
  filter (fun t => (candleBucketTime intervalMs (timestamp t) =? k)%Z) h.

(** The candle of a bucket whose trades are [t1] followed by [rest]. *)
Definition candle_summary (k : Z) (t1 : TradeRecord) (rest : list TradeRecord)
  : Candle.t :=
  {| Candle.time := (k / 1000)%Z;
     Candle.open := price t1;
     Candle.high := fold_left Math_max (map price rest) (price t1);
     Candle.low := fold_left Math_min (map price rest) (price t1);
     Candle.close := price (last rest t1);
     Candle.volume := fold_left PrimFloat.add (map quantity rest) (quantity t1) |}.

Definition candles_built (intervalMs : Z) (h : list TradeRecord)
  (m : Map Candle.t) : Prop :=
  NoDup (map fst m)
  /\ forall k, match get k m with
               | Some c => exists t1 rest,
                             candle_group intervalMs k h = t1 :: rest
                             /\ c = candle_summary k t1 rest
               | None => candle_group intervalMs k h = []
               end.

(** Three trades of two minutes, as the UI holds them. *)
Definition ui_trades : list TradeRecord :=
  [ {| price := 43000; quantity := 0.5; tradeValue := 21500;
       timestamp := 1700000045000; isWhale := false |};
    {| price := 43100; quantity := 0.25; tradeValue := 10775;
       timestamp := 1700000050000; isWhale := false |};
    {| price := 42900; quantity := 1; tradeValue := 42900;
       timestamp := 1700000105000; isWhale := false |} ].

(** [if (x)] on a number or [null]: zero and NaN are falsy. *)
Definition truthy (x : float) : bool := negb (is_nan x || (x =? 0)%float).

(** The points [buildCandleData] pushes for an indicator [f] of period
    [period]: for the candle of index [idx] the indicator of the closes up
    to that candle, when it is truthy. *)
Definition indicator_points (f : list float -> nat -> option float)
  (period : nat) (candleData : list Candle.t) : list (Z * float) :=
  let priceHistory := map Candle.close candleData in
  flat_map (fun ci =>
              let prices := firstn (snd ci + 1) priceHistory in
              match f prices period with
              | Some v => if truthy v then [(Candle.time (fst ci), v)] else []
              | None => []
              end)
           (combine candleData (seq 0 (length candleData))).

Definition sma20Data (candleData : list Candle.t) : list (Z * float) :=
  indicator_points calculateSMA 20 candleData.

Definition ema12Data (candleData : list Candle.t) : list (Z * float) :=
  indicator_points calculateEMA 12 candleData.

(** Twenty one-minute candles at a constant price. *)
Definition flat_candles : list Candle.t :=
  map (fun i => {| Candle.time := (Z.of_nat i * 60)%Z;
                   Candle.open := 43000; Candle.high := 43000;
                   Candle.low := 43000; Candle.close := 43000;
                   Candle.volume := 1 |})
      (seq 0 20).

(** ** The trading UI: the history table *)

(** The trades [updateHistoryTable] renders as rows, for the value of the
    filter box; without rows it shows the line "No trades". *)
Definition historyRows (filter : string) (allTrades : list TradeRecord)
  : list TradeRecord :=
  let trades := firstn 50 (rev allTrades) in
  if String.eqb filter "whale" then List.filter isWhale trades
  else if String.eqb filter "large"
       then List.filter (fun t => gt (tradeValue t) 100000) trades
       else trades.

(** ** The server: what a feed message broadcasts *)

Module TradeUpdate.
Record t := {
  price : string;
  quantity : string;
  tradeValue : string;
  timestamp : string;
  isWhale : bool
}.
End TradeUpdate.

Inductive Severity := critical | high.

Module WhaleAlert.
Record t := {
  price : string;
  quantity : string;
  tradeValue : string;
  timestamp : string;
  severity : Severity;
  message : string
}.
End WhaleAlert.

(** What [io.emit] sends to the clients. *)
Inductive Emit :=
| trade_update (payload : TradeUpdate.t)
| whale_alert (payload : WhaleAlert.t)
| chart_data (payload : ChartData)
| metrics_update (payload : MetricsSnapshot).

(** The instants a [Date] can hold: at most 8.64e15 ms from the epoch. *)
Definition valid_time (ts : Z) : bool := (Z.abs ts <=? 8640000000000000)%Z.

Section Server.

Variable toFixed : nat -> float -> string.
Variable toLocaleTimeString : Z -> string.

(** The ISO rendering of a valid instant. *)
Variable toISOString : Z -> string.

(** [new Date(ts).toISOString()]: [None] is the RangeError it throws on an
    instant outside the range of dates. *)
Definition isoTime (ts : Z) : option string :=
  if valid_time ts then Some (toISOString ts) else None.

(** The payload of [broadcastTradeUpdate]; [None] when building it throws,
    in which case nothing is emitted. *)
Definition broadcastTradeUpdate (tradeData : TradeRecord) : option Emit :=
  match isoTime (timestamp tradeData) with
  | Some iso =>
      Some (trade_update
              {| TradeUpdate.price := toFixed 2 (price tradeData);
                 TradeUpdate.quantity := toFixed 6 (quantity tradeData);
                 TradeUpdate.tradeValue := toFixed 2 (tradeValue tradeData);
                 TradeUpdate.timestamp := iso;
                 TradeUpdate.isWhale := isWhale tradeData |})
  | None => None
  end.

Definition broadcastWhaleAlert (whaleData : TradeRecord) : option Emit :=
  match isoTime (timestamp whaleData) with
  | Some iso =>
      Some (whale_alert
              {| WhaleAlert.price := toFixed 2 (price whaleData);
                 WhaleAlert.quantity := toFixed 6 (quantity whaleData);
                 WhaleAlert.tradeValue := toFixed 2 (tradeValue whaleData);
                 WhaleAlert.timestamp := iso;
                 WhaleAlert.severity :=
                   if gt (tradeValue whaleData) 1000000 then critical else high;
                 WhaleAlert.message :=
                   ("🐋 WHALE ALERT: " ++ toFixed 4 (quantity whaleData)
                    ++ " BTC at $" ++ toFixed 2 (price whaleData))%string |})
  | None => None
  end.

(** The handler of a feed message in [server.js], with what it emits in
    order; [chart_now] is the clock reading of [getChartData].  An error
    thrown on the way is caught: what was done before it stays done, what
    follows is skipped. *)
Definition handle_message (d : WhaleDetector) (ev : option RawTrade * Ticks)
  (chart_now : Z) : WhaleDetector * list Emit :=
  match processTrade d (fst ev) (snd ev) with
  | Throw _ => (d, [])
  | Normal (d', processedTrade) =>
      match broadcastTradeUpdate processedTrade with
      | None => (d', [])
      | Some update =>
          let alert :=
            if isWhale processedTrade
            then option_map (fun e => [e]) (broadcastWhaleAlert processedTrade)
            else Some [] in
          match alert with
          | None => (d', [update])
          | Some alerts =>
              let snapshots :=
                if (length (tradeHistory d') mod 5 =? 0)%nat
                then [chart_data (getChartData toFixed toLocaleTimeString
                                    d' chart_now);
                      metrics_update (getMetrics toFixed d')]
                else [] in
              (d', update :: alerts ++ snapshots)
          end
      end
  end.

End Server.

(** ** The server: reconnection *)

Definition MAX_RECONNECT_ATTEMPTS : nat := 5.

(** What the feed socket reports. *)
Inductive SocketEvent := socket_open | socket_close.

(** The handlers of 'open' and 'close': the new value of
    [reconnectAttempts], and whether a reconnection was scheduled. *)
Definition on_socket_event (reconnectAttempts : nat) (e : SocketEvent)
  : nat * bool :=
  match e with
  | socket_open => (0%nat, false)
  | socket_close =>
      if (reconnectAttempts <? MAX_RECONNECT_ATTEMPTS)%nat
      then (S reconnectAttempts, true)
      else (reconnectAttempts, false)
  end.

(** A sequence of socket events: the final counter and the number of
    reconnections scheduled on the way. *)
Definition run_socket (reconnectAttempts : nat) (es : list SocketEvent)
  : nat * nat :=
  fold_left (fun st e =>
               let r := on_socket_event (fst st) e in
               (fst r, if snd r then S (snd st) else snd st))
            es (reconnectAttempts, 0%nat).

(** A whale of notional value 1.5 million. *)
Definition big_whale : RawTrade := {| p := 60000; q := 25; T := None |}.

(** A record whose event time no [Date] can hold. *)
Definition far_trade : RawTrade :=
  {| p := 600000; q := 1; T := Some 9000000000000000%Z |}.

(** ** Properties of [processTrade] *)

(** A call on a record object that completed: replace the new state and the
    returned record by what [processTrade_body] computes. *)
Ltac call_result H :=
  unfold processTrade in H; injection H as <- <-.

(** C1: the record processTrade constructs has isWhale true exactly when
    the product price * quantity is strictly greater than 500000; a
    notional value equal to the threshold is not a whale. *)
Theorem processTrade_isWhale_iff :
  forall (d : WhaleDetector) (raw : RawTrade) (tk : Ticks),
    exists d' r,
      processTrade d (Some raw) tk = Normal (d', r)
      /\ price r = p raw /\ quantity r = q raw
      /\ tradeValue r = (price r * quantity r)%float
      /\ (isWhale r = true <-> (500000 <? price r * quantity r)%float = true)
      /\ ((price r * quantity r)%float = 500000%float -> isWhale r = false).
Proof.
  intros d raw tk.
  exists (fst (processTrade_body d raw tk)), (snd (processTrade_body d raw tk)).
  split; [ unfold processTrade; now rewrite <- surjective_pairing | ].
  cbn. repeat split; auto.
  intros E. unfold gt, WHALE_THRESHOLD. rewrite E. reflexivity.
Qed.

Lemma processTrade_isWhale_iff_witness :
  exists d' r,
    processTrade (new_WhaleDetector 1700000000000)
      (Some {| p := 250000; q := 2; T := None |}) sample_ticks
    = Normal (d', r)
    /\ isWhale r = false.
Proof.
  destruct (processTrade_isWhale_iff (new_WhaleDetector 1700000000000)
              {| p := 250000; q := 2; T := None |} sample_ticks)
    as (d' & r & E & Hp & Hq & _ & _ & Hb).
  exists d', r. split; [ exact E | ].
  apply Hb. rewrite Hp, Hq. reflexivity.
Defined.

(** ** The rolling history *)

Lemma tl_skipn {A} (k : nat) (l : list A) : tl (skipn k l) = skipn (S k) l.
Proof.
  revert l. induction k as [|k IH]; intros [|x l]; try reflexivity.
  cbn [skipn]. rewrite IH. destruct l; reflexivity.
Qed.

Lemma tl_snoc {A} (l : list A) (x : A) :
  l <> [] -> tl (l ++ [x]) = tl l ++ [x].
Proof. destruct l; [congruence | reflexivity]. Qed.

Lemma push_bounded_length (h : list TradeRecord) (r : TradeRecord) :
  (length h <= MAX_HISTORY)%nat ->
  (length (push_bounded h r) <= MAX_HISTORY)%nat.
Proof.
  intros Hle. unfold push_bounded.
  destruct (Nat.ltb_spec MAX_HISTORY (length (h ++ [r]))) as [Hlt|Hge].
  - rewrite length_app in Hlt. cbn in Hlt.
    destruct h as [|x h]; cbn in *; [lia|].
    rewrite length_app. cbn. lia.
  - exact Hge.
Qed.

Lemma push_bounded_full (h : list TradeRecord) (r : TradeRecord) :
  length h = MAX_HISTORY -> push_bounded h r = tl h ++ [r].
Proof.
  intros Hlen. unfold push_bounded.
  destruct (Nat.ltb_spec MAX_HISTORY (length (h ++ [r]))) as [Hlt|Hge].
  - apply tl_snoc. intros ->. cbn in Hlen. unfold MAX_HISTORY in Hlen.
    discriminate Hlen.
  - rewrite length_app in Hge. cbn in Hge. lia.
Qed.

(** Pushing onto the last [MAX_HISTORY] records of [rs] gives the last
    [MAX_HISTORY] records of [rs ++ [r]]. *)
Lemma push_bounded_suffix (rs : list TradeRecord) (r : TradeRecord) :
  push_bounded (skipn (length rs - MAX_HISTORY) rs) r
  = skipn (length (rs ++ [r]) - MAX_HISTORY) (rs ++ [r]).
Proof.
  unfold push_bounded.
  rewrite !length_app, length_skipn. cbn [length].
  assert (Hpos : (0 < MAX_HISTORY)%nat) by (unfold MAX_HISTORY; lia).
  destruct (Nat.ltb_spec MAX_HISTORY
              (length rs - (length rs - MAX_HISTORY) + 1)) as [Hlt|Hge].
  - assert (Hn : (MAX_HISTORY <= length rs)%nat) by lia.
    replace (length rs + 1 - MAX_HISTORY)%nat
      with (S (length rs - MAX_HISTORY)) by lia.
    rewrite <- tl_skipn. f_equal.
    rewrite skipn_app.
    replace (length rs - MAX_HISTORY - length rs)%nat with 0%nat by lia.
    reflexivity.
  - replace (length rs - MAX_HISTORY)%nat with 0%nat by lia.
    replace (length rs + 1 - MAX_HISTORY)%nat with 0%nat by lia.
    reflexivity.
Qed.

Lemma feed_snoc (d : WhaleDetector) evs ev :
  feed d (evs ++ [ev]) = on_message (feed d evs) ev.
Proof. unfold feed. now rewrite fold_left_app. Qed.

Lemma records_of_snoc evs ev :
  records_of (evs ++ [ev])
  = records_of evs ++ match fst ev with
                      | Some raw => [tradeRecord_of raw (snd ev)]
                      | None => []
                      end.
Proof.
  unfold records_of. rewrite flat_map_app. cbn. now rewrite app_nil_r.
Qed.

Lemma tradeHistory_on_message (d : WhaleDetector) (raw : RawTrade) (tk : Ticks) :
  tradeHistory (on_message d (Some raw, tk))
  = push_bounded (tradeHistory d) (tradeRecord_of raw tk).
Proof. reflexivity. Qed.

(** The history is always the last [MAX_HISTORY] records that arrived. *)
Lemma tradeHistory_feed (now : Z) evs :
  tradeHistory (feed (new_WhaleDetector now) evs)
  = skipn (length (records_of evs) - MAX_HISTORY) (records_of evs).
Proof.
  induction evs as [|[[raw|] tk] evs IH] using rev_ind.
  - reflexivity.
  - rewrite feed_snoc, records_of_snoc, tradeHistory_on_message, IH.
    apply push_bounded_suffix.
  - rewrite feed_snoc, records_of_snoc. cbn [fst snd on_message processTrade].
    now rewrite app_nil_r.
Qed.

(** C2: after any sequence of processTrade calls on a fresh instance the
    history holds at most MAX_HISTORY = 3600 records, namely the last 3600
    that arrived; a call on a full history drops the first-inserted record
    and keeps the others in order, so after 3601 records the first is gone
    and the second is the oldest one kept. *)
Theorem tradeHistory_bounded_fifo :
  forall (now : Z) (evs : list (option RawTrade * Ticks)),
    let d := feed (new_WhaleDetector now) evs in
    MAX_HISTORY = 3600%nat
    /\ (length (tradeHistory d) <= MAX_HISTORY)%nat
    /\ tradeHistory d
       = skipn (length (records_of evs) - MAX_HISTORY) (records_of evs)
    /\ (length (records_of evs) = S MAX_HISTORY ->
        tradeHistory d = tl (records_of evs))
    /\ (forall raw tk d' r,
          length (tradeHistory d) = MAX_HISTORY ->
          processTrade d (Some raw) tk = Normal (d', r) ->
          tradeHistory d' = tl (tradeHistory d) ++ [r]).
Proof.
  intros now evs d. subst d.
  pose proof (tradeHistory_feed now evs) as Hh.
  split; [reflexivity|]. split; [|split; [exact Hh|split]].
  - rewrite Hh, length_skipn. lia.
  - intros Hlen. rewrite Hh, Hlen.
    replace (S MAX_HISTORY - MAX_HISTORY)%nat with 1%nat by lia.
    reflexivity.
  - intros raw tk d' r Hlen Hcall. call_result Hcall. cbn [tradeHistory].
    now apply push_bounded_full.
Qed.

Lemma tradeHistory_bounded_fifo_witness :
  length (records_of events_3601) = S MAX_HISTORY
  /\ tradeHistory (feed (new_WhaleDetector 0) events_3601)
     = tl (records_of events_3601).
Proof.
  assert (Hlen : length (records_of events_3601) = S MAX_HISTORY)
    by (vm_compute; reflexivity).
  split; [exact Hlen|].
  exact (proj1 (proj2 (proj2 (proj2
           (tradeHistory_bounded_fifo 0 events_3601)))) Hlen).
Defined.

(** ** Records that do not parse *)

(** NaN is absorbing for the product, and never above the threshold. *)
Lemma is_nan_eq (x : float) : is_nan x = true -> x = nan.
Proof.
  intros H. rewrite <- (SF2Prim_Prim2SF x).
  unfold is_nan in H. rewrite eqb_spec in H.
  destruct (Prim2SF x) as [s|s| |s m e]; try reflexivity; exfalso; revert H.
  - destruct s; cbn; discriminate.
  - destruct s; cbn; discriminate.
  - unfold SFeqb, SFcompare.
    destruct s; rewrite Z.compare_refl, Pos.compare_cont_refl;
      cbn; discriminate.
Qed.

Lemma mul_nan_l (x : float) : (nan * x)%float = nan.
Proof.
  rewrite <- (SF2Prim_Prim2SF (nan * x)), mul_spec. reflexivity.
Qed.

Lemma mul_nan_r (x : float) : (x * nan)%float = nan.
Proof.
  rewrite <- (SF2Prim_Prim2SF (x * nan)), mul_spec.
  change (Prim2SF nan) with S754_nan.
  unfold SF64mul, SFmul. destruct (Prim2SF x) as [s|s| |s m e]; reflexivity.
Qed.

Lemma tradeValue_nan (raw : RawTrade) (tk : Ticks) :
  is_nan (p raw) = true \/ is_nan (q raw) = true ->
  tradeValue (tradeRecord_of raw tk) = nan.
Proof.
  intros [H|H]; apply is_nan_eq in H; cbn; rewrite H;
    [apply mul_nan_l | apply mul_nan_r].
Qed.

Lemma push_bounded_last (h : list TradeRecord) (r r0 : TradeRecord) :
  last (push_bounded h r) r0 = r.
Proof.
  unfold push_bounded.
  destruct (Nat.ltb_spec MAX_HISTORY (length (h ++ [r]))) as [Hlt|Hge].
  - destruct h as [|x h]; cbn [app tl].
    + cbn in Hlt. unfold MAX_HISTORY in Hlt. lia.
    + apply last_last.
  - apply last_last.
Qed.

(** The claim C3 as the specification states it fails: a record whose price
    does not parse is processed like any other, returned and stored. *)
Lemma processTrade_malformed_accepted :
  malformed nan_trade = true
  /\ ~ fails (processTrade (new_WhaleDetector 0) (Some nan_trade) sample_ticks)
  /\ exists d' r,
       processTrade (new_WhaleDetector 0) (Some nan_trade) sample_ticks
       = Normal (d', r)
       /\ tradeHistory d' = [r]
       /\ price r = nan.
Proof.
  split; [reflexivity|]. split.
  - intros [e He]. discriminate He.
  - eexists _, _. split; [reflexivity|]. split; reflexivity.
Qed.

Lemma processTrade_object_parsed d trade tk x y :
  parseFloat (field_p trade) = Normal x ->
  parseFloat (field_q trade) = Normal y ->
  processTrade_object d trade tk
  = Normal (processTrade_body d {| p := x; q := y; T := field_T trade |} tk).
Proof.
  intros Hp Hq. unfold processTrade_object. now rewrite Hp, Hq.
Qed.

Lemma processTrade_object_thrown d trade tk :
  parseFloat (field_p trade) = Throw TypeError
  \/ parseFloat (field_q trade) = Throw TypeError ->
  processTrade_object d trade tk = Throw TypeError.
Proof.
  unfold processTrade_object. intros [H|H].
  - now rewrite H.
  - rewrite H. now destruct (parseFloat (field_p trade)) as [x|[]].
Qed.

(** What a call on a record object whose fields parse to [x] and [y]
    returns and stores. *)
Lemma processTrade_object_stores d trade tk x y :
  parseFloat (field_p trade) = Normal x ->
  parseFloat (field_q trade) = Normal y ->
  exists d' r,
    processTrade_object d trade tk = Normal (d', r)
    /\ price r = x /\ quantity r = y
    /\ tradeValue r = (x * y)%float
    /\ isWhale r = (500000 <? x * y)%float
    /\ (forall r0, last (tradeHistory d') r0 = r).
Proof.
  intros Hp Hq.
  set (raw := {| p := x; q := y; T := field_T trade |}).
  exists (fst (processTrade_body d raw tk)), (snd (processTrade_body d raw tk)).
  split.
  { rewrite (processTrade_object_parsed d trade tk x y Hp Hq).
    now rewrite <- surjective_pairing. }
  cbn [processTrade_body fst snd tradeHistory].
  repeat split. intros r0. apply push_bounded_last.
Qed.

(** C3 (amended): no call of processTrade fails with a
    MalformedInputError.  On a record object whose price and quantity
    parseFloat converts, which it does for every field that is missing or
    primitive, processTrade raises no error whatever they parse to: it
    returns the record built from the parsed values as they are and stores
    it as the newest entry of the history; a price or quantity that parses
    to NaN (a missing field does) gives a NaN notional value and a record
    that is not a whale.  On a record object with a field that parseFloat
    cannot convert, processTrade throws the TypeError of the conversion
    and the state is as before.  In either case the next record object
    that parses is returned, classified by its own price * quantity and
    stored as the newest entry. *)
Theorem processTrade_object_outcomes :
  forall (d : WhaleDetector) (trade : TradeObject) (tk : Ticks),
    (parseFloat Absent = Normal nan
     /\ forall f, (forall c, f <> Object c) -> exists x, parseFloat f = Normal x)
    /\ (forall x y,
          parseFloat (field_p trade) = Normal x ->
          parseFloat (field_q trade) = Normal y ->
          exists d' r,
            processTrade_object d trade tk = Normal (d', r)
            /\ on_object d trade tk = d'
            /\ price r = x /\ quantity r = y
            /\ (forall r0, last (tradeHistory d') r0 = r)
            /\ (is_nan x = true \/ is_nan y = true ->
                is_nan (tradeValue r) = true /\ isWhale r = false))
    /\ (parseFloat (field_p trade) = Throw TypeError
        \/ parseFloat (field_q trade) = Throw TypeError ->
        processTrade_object d trade tk = Throw TypeError
        /\ on_object d trade tk = d)
    /\ (forall trade2 tk2 x2 y2,
          parseFloat (field_p trade2) = Normal x2 ->
          parseFloat (field_q trade2) = Normal y2 ->
          exists d2 r2,
            processTrade_object (on_object d trade tk) trade2 tk2
            = Normal (d2, r2)
            /\ price r2 = x2 /\ quantity r2 = y2
            /\ isWhale r2 = (500000 <? x2 * y2)%float
            /\ (forall r0, last (tradeHistory d2) r0 = r2)).
Proof.
  intros d trade tk. split; [|split; [|split]].
  - split; [reflexivity|]. intros [|x|c] Hf.
    + now exists nan.
    + now exists x.
    + now destruct (Hf c).
  - intros x y Hp Hq.
    destruct (processTrade_object_stores d trade tk x y Hp Hq)
      as (d' & r & Hcall & Hpr & Hqu & Hval & Hw & Hlast).
    exists d', r. split; [exact Hcall|].
    split; [unfold on_object; now rewrite Hcall|].
    repeat (split; [assumption|]).
    intros Hnan.
    assert (E : (x * y)%float = nan).
    { destruct Hnan as [H|H]; apply is_nan_eq in H; rewrite H;
        [apply mul_nan_l | apply mul_nan_r]. }
    rewrite Hw, Hval, E. split; reflexivity.
  - intros Hthrow. pose proof (processTrade_object_thrown d trade tk Hthrow) as E.
    split; [exact E|]. unfold on_object. now rewrite E.
  - intros trade2 tk2 x2 y2 Hp Hq.
    destruct (processTrade_object_stores (on_object d trade tk) trade2 tk2
                x2 y2 Hp Hq)
      as (d2 & r2 & Hcall & Hpr & Hqu & _ & Hw & Hlast).
    now exists d2, r2.
Qed.

Lemma processTrade_object_outcomes_witness :
  (exists d' r,
      processTrade_object (new_WhaleDetector 0) priceless_object sample_ticks
      = Normal (d', r)
      /\ is_nan (tradeValue r) = true /\ isWhale r = false)
  /\ processTrade_object (new_WhaleDetector 0) opaque_object sample_ticks
     = Throw TypeError.
Proof.
  pose proof (processTrade_object_outcomes (new_WhaleDetector 0)
                priceless_object sample_ticks) as (_ & Hparsed & _).
  pose proof (processTrade_object_outcomes (new_WhaleDetector 0)
                opaque_object sample_ticks) as (_ & _ & Hthrown & _).
  split.
  - destruct (Hparsed nan 1%float eq_refl eq_refl)
      as (d' & r & Hcall & _ & _ & _ & _ & Hnan).
    exists d', r. split; [exact Hcall|]. apply Hnan. left. reflexivity.
  - apply Hthrown. left. reflexivity.
Defined.

(** ** The chart aggregator: what the buckets are *)

(** *** The map *)

Section MapFacts.
Context {V : Type}.
Implicit Types (m : Map V) (k : Z) (v : V).

Lemma has_get k m :
  has k m = match get k m with Some _ => true | None => false end.
Proof.
  induction m as [|[k' v'] m IH]; cbn; [reflexivity|].
  destruct (k =? k')%Z; [reflexivity | exact IH].
Qed.

Lemma get_set_same k v m : get k (JS.set k v m) = Some v.
Proof.
  induction m as [|[k' v'] m IH]; cbn.
  - now rewrite Z.eqb_refl.
  - destruct (k =? k')%Z eqn:E; cbn; rewrite E; [reflexivity | exact IH].
Qed.

Lemma get_set_other k k0 v m : k0 <> k -> get k0 (JS.set k v m) = get k0 m.
Proof.
  intros Hne. induction m as [|[k' v'] m IH]; cbn.
  - destruct (Z.eqb_spec k0 k); [contradiction | reflexivity].
  - destruct (Z.eqb_spec k k') as [->|Hk]; cbn.
    + destruct (Z.eqb_spec k0 k'); [contradiction | reflexivity].
    + destruct (k0 =? k')%Z; [reflexivity | exact IH].
Qed.

Lemma keys_set k v m :
  map fst (JS.set k v m) = if has k m then map fst m else map fst m ++ [k].
Proof.
  induction m as [|[k' v'] m IH]; cbn; [reflexivity|].
  destruct (k =? k')%Z; cbn; [reflexivity|].
  rewrite IH. now destruct (has k m).
Qed.

Lemma has_In k m : has k m = true <-> In k (map fst m).
Proof.
  induction m as [|[k' v'] m IH]; cbn; [split; [discriminate | tauto]|].
  destruct (Z.eqb_spec k k') as [->|Hk]; [tauto|].
  rewrite IH. split; [tauto | intros [E|H]; [congruence | exact H]].
Qed.

Lemma NoDup_keys_set k v m :
  NoDup (map fst m) -> NoDup (map fst (JS.set k v m)).
Proof.
  intros Hnd. rewrite keys_set. destruct (has k m) eqn:E; [exact Hnd|].
  assert (Hnin : ~ In k (map fst m)).
  { rewrite <- has_In, E. discriminate. }
  clear E. induction (map fst m) as [|x l IH]; cbn.
  - constructor; [tauto | constructor].
  - inversion Hnd as [|? ? Hx Hl]; subst. constructor.
    + rewrite in_app_iff. cbn. intros [H|[H|[]]]; [tauto|].
      apply Hnin. left. symmetry. exact H.
    + apply IH; [exact Hl|]. intros H. apply Hnin. right. exact H.
Qed.

Lemma get_In k v m : NoDup (map fst m) -> (In (k, v) m <-> get k m = Some v).
Proof.
  induction m as [|[k' v'] m IH]; cbn; intros Hnd.
  - split; [tauto | discriminate].
  - inversion Hnd as [|? ? Hk' Hm]; subst.
    destruct (Z.eqb_spec k k') as [->|Hk].
    + split.
      * intros [E|H]; [congruence|]. exfalso. apply Hk'.
        change k' with (fst (k', v)). now apply in_map.
      * intros E. left. congruence.
    + rewrite <- (IH Hm). split; [intros [E|H]; [congruence | exact H] | tauto].
Qed.

End MapFacts.

(** *** What the buckets hold *)

Lemma members_snoc oneHourAgo k h t :
  members oneHourAgo k (h ++ [t])
  = members oneHourAgo k h ++ (if in_bucket oneHourAgo k t then [t] else []).
Proof. unfold members. now rewrite filter_app. Qed.

Lemma sum_quantities_snoc ts t :
  sum_quantities (ts ++ [t]) = (sum_quantities ts + quantity t)%float.
Proof. unfold sum_quantities. now rewrite map_app, fold_left_app. Qed.

Lemma summarises_snoc (b : Bucket.t) (k : Z) ts t :
  summarises b k ts ->
  summarises {| Bucket.price := price t;
                Bucket.totalVolume := (Bucket.totalVolume b + quantity t)%float;
                Bucket.count := S (Bucket.count b);
                Bucket.timestamp := Bucket.timestamp b |} k (ts ++ [t]).
Proof.
  intros (Hk & _ & Hv & Hc & _). unfold summarises. cbn.
  repeat split.
  - exact Hk.
  - now destruct ts.
  - now rewrite sum_quantities_snoc, Hv.
  - rewrite length_app. cbn. lia.
  - intros t0. now rewrite last_last.
Qed.

Lemma summarises_first (k : Z) t :
  summarises {| Bucket.price := price t;
                Bucket.totalVolume := (0 + quantity t)%float;
                Bucket.count := 1;
                Bucket.timestamp := k |} k [t].
Proof. unfold summarises. cbn. repeat split. discriminate. Qed.

Lemma collected_step oneHourAgo h m t :
  collected oneHourAgo h m ->
  collected oneHourAgo (h ++ [t]) (collect oneHourAgo m t).
Proof.
  intros [Hnd Hall]. unfold collect.
  destruct (oneHourAgo <=? timestamp t)%Z eqn:Hw.
  - set (bt := bucketTime (timestamp t)).
    assert (Hother : forall k, k <> bt ->
              members oneHourAgo k (h ++ [t]) = members oneHourAgo k h).
    { intros k Hk. rewrite members_snoc. unfold in_bucket. fold bt.
      destruct (Z.eqb_spec bt k); [congruence|].
      rewrite andb_false_r. apply app_nil_r. }
    assert (Hsame : members oneHourAgo bt (h ++ [t])
                    = members oneHourAgo bt h ++ [t]).
    { rewrite members_snoc. unfold in_bucket. fold bt.
      now rewrite Hw, Z.eqb_refl. }
    pose proof (Hall bt) as Hbt. rewrite has_get.
    destruct (get bt m) as [b|] eqn:Eb.
    + rewrite Eb. split; [now apply NoDup_keys_set|].
      intros k. destruct (Z.eq_dec k bt) as [->|Hk].
      * rewrite get_set_same, Hsame. now apply summarises_snoc.
      * rewrite get_set_other by exact Hk. rewrite (Hother k Hk). apply Hall.
    + rewrite get_set_same. split; [now do 2 apply NoDup_keys_set|].
      intros k. destruct (Z.eq_dec k bt) as [->|Hk].
      * rewrite get_set_same, Hsame, Hbt. apply summarises_first.
      * rewrite !get_set_other by exact Hk. rewrite (Hother k Hk). apply Hall.
  - split; [exact Hnd|]. intros k. rewrite members_snoc.
    unfold in_bucket. rewrite Hw. cbn. rewrite app_nil_r. apply Hall.
Qed.

Lemma collected_fold oneHourAgo h :
  collected oneHourAgo h (fold_left (collect oneHourAgo) h []).
Proof.
  induction h as [|t h IH] using rev_ind.
  - split; [constructor | reflexivity].
  - rewrite fold_left_app. now apply collected_step.
Qed.

(** *** The sort *)

Lemma insert_bucket_perm b l : Permutation (b :: l) (insert_bucket b l).
Proof.
  induction l as [|x l IH]; cbn; [reflexivity|].
  destruct (Bucket.timestamp b <=? Bucket.timestamp x)%Z; [reflexivity|].
  rewrite perm_swap. now constructor.
Qed.

Lemma sort_buckets_perm l : Permutation l (sort_buckets l).
Proof.
  induction l as [|b l IH]; cbn; [constructor|].
  rewrite <- insert_bucket_perm. now constructor.
Qed.

Lemma insert_bucket_ascending b l : ascending l -> ascending (insert_bucket b l).
Proof.
  unfold ascending. induction 1 as [|x l Hl IH Hx]; cbn.
  - constructor; constructor.
  - destruct (Z.leb_spec (Bucket.timestamp b) (Bucket.timestamp x)) as [Hle|Hgt].
    + constructor; [now constructor|]. constructor; [exact Hle|].
      eapply Forall_impl; [|exact Hx]. cbn. intros; lia.
    + constructor; [exact IH|].
      rewrite <- (insert_bucket_perm b l). constructor; [lia | exact Hx].
Qed.

Lemma sort_buckets_ascending l : ascending (sort_buckets l).
Proof.
  induction l as [|b l IH]; cbn; [constructor|].
  now apply insert_bucket_ascending.
Qed.

Lemma ascending_strict (l : list Bucket.t) :
  ascending l -> NoDup (map Bucket.timestamp l) ->
  StronglySorted Z.lt (map Bucket.timestamp l).
Proof.
  unfold ascending. induction 1 as [|x l Hl IH Hx]; cbn; intros Hnd.
  - constructor.
  - inversion Hnd as [|? ? Hnin Hnd']; subst.
    constructor; [now apply IH|].
    rewrite Forall_forall in *. intros z Hz.
    apply in_map_iff in Hz as Hz'. destruct Hz' as (y & <- & Hy).
    specialize (Hx y Hy). cbn in Hx.
    destruct (Z.eq_dec (Bucket.timestamp x) (Bucket.timestamp y)) as [E|Hne];
      [|lia].
    exfalso. apply Hnin. now rewrite E.
Qed.

(** *** The chart series *)

Lemma collected_timestamps oneHourAgo h (m : Map Bucket.t) :
  collected oneHourAgo h m -> map Bucket.timestamp (values m) = map fst m.
Proof.
  intros [Hnd Hall]. unfold values. rewrite map_map.
  apply map_ext_in. intros [k b] Hin. cbn.
  apply (get_In k b) in Hin; [|exact Hnd].
  specialize (Hall k). rewrite Hin in Hall. apply Hall.
Qed.

Lemma sortedBuckets_In h now b :
  In b (sortedBuckets h now) ->
  get (Bucket.timestamp b) (fold_left (collect (now - 3600000)) h [])
  = Some b.
Proof.
  unfold sortedBuckets. change (60 * 60 * 1000)%Z with 3600000%Z.
  pose proof (collected_fold (now - 3600000) h) as Hc.
  intros Hin. apply (Permutation_in _ (Permutation_sym (sort_buckets_perm _)))
    in Hin.
  unfold values in Hin. apply in_map_iff in Hin as ([k b'] & Hb & Hin).
  cbn in Hb. subst b'. destruct Hc as [Hnd Hall].
  apply (get_In k b) in Hin; [|exact Hnd].
  specialize (Hall k). rewrite Hin in Hall.
  destruct Hall as [-> _]. exact Hin.
Qed.

Lemma sortedBuckets_summarises h now b :
  In b (sortedBuckets h now) ->
  summarises b (Bucket.timestamp b)
    (members (now - 3600000) (Bucket.timestamp b) h).
Proof.
  intros Hin. apply sortedBuckets_In in Hin.
  destruct (collected_fold (now - 3600000) h) as [_ Hall].
  specialize (Hall (Bucket.timestamp b)). now rewrite Hin in Hall.
Qed.

Lemma sortedBuckets_strict h now :
  StronglySorted Z.lt (map Bucket.timestamp (sortedBuckets h now)).
Proof.
  apply ascending_strict; [apply sort_buckets_ascending|].
  unfold sortedBuckets. change (60 * 60 * 1000)%Z with 3600000%Z.
  pose proof (collected_fold (now - 3600000) h) as Hc.
  eapply Permutation_NoDup.
  - apply Permutation_map, sort_buckets_perm.
  - rewrite (collected_timestamps _ _ _ Hc). apply Hc.
Qed.

Lemma sortedBuckets_complete h now t :
  In t h -> (now - 3600000 <= timestamp t)%Z ->
  In (bucketTime (timestamp t)) (map Bucket.timestamp (sortedBuckets h now)).
Proof.
  intros Hin Hw.
  unfold sortedBuckets. change (60 * 60 * 1000)%Z with 3600000%Z.
  pose proof (collected_fold (now - 3600000) h) as Hc.
  eapply Permutation_in; [apply Permutation_map, sort_buckets_perm|].
  rewrite (collected_timestamps _ _ _ Hc).
  destruct Hc as [Hnd Hall]. specialize (Hall (bucketTime (timestamp t))).
  destruct (get _ _) as [b|] eqn:Eb.
  - apply (get_In _ b) in Eb; [|exact Hnd].
    change (bucketTime (timestamp t)) with (fst (bucketTime (timestamp t), b)).
    now apply in_map.
  - exfalso. assert (Ht : In t (members (now - 3600000)
                                  (bucketTime (timestamp t)) h)).
    { apply filter_In. split; [exact Hin|]. unfold in_bucket.
      rewrite Z.eqb_refl, andb_true_r. now apply Z.leb_le. }
    rewrite Hall in Ht. exact Ht.
Qed.

Lemma float_neq (x y : float) :
  (x =? y)%float = false -> (y =? y)%float = true -> x <> y.
Proof. intros H1 H2 E. rewrite E in H1. congruence. Qed.

(** The claim C4 as the specification states it fails on the price: the
    bucket's price is the price of the trade that arrived last, here the
    one with the earlier timestamp. *)
Lemma sortedBuckets_price_not_chronological :
  exists b t,
    let h := tradeHistory (feed (new_WhaleDetector 1700000000000) out_of_order) in
    In b (sortedBuckets h 1700000060000)
    /\ chronologically_last
         (members (1700000060000 - 3600000) (Bucket.timestamp b) h) t
    /\ Bucket.price b <> price t.
Proof.
  exists {| Bucket.price := 42000; Bucket.totalVolume := 0.75;
            Bucket.count := 2; Bucket.timestamp := 1700000040000 |}.
  exists {| price := 43000; quantity := 0.5; tradeValue := 21500;
            timestamp := 1700000050000; isWhale := false |}.
  cbv zeta. split; [|split].
  - vm_compute. left. reflexivity.
  - split.
    + vm_compute. left. reflexivity.
    + intros t' Hin. vm_compute in Hin.
      destruct Hin as [<-|[<-|[]]]; cbn; lia.
  - cbn. apply float_neq; reflexivity.
Qed.

(** C4 (amended): for every history whose timestamps are exact instants
    (integers below 2^53 in absolute value, as every value of a Date is)
    and every instant [now], getChartData emits the renderings of one
    bucket per minute that holds a trade of the window, sorted by strictly
    ascending bucket timestamp; the volume of a bucket is the sum,
    accumulated from 0 in arrival order, of the quantities of the trades of
    the window whose timestamp floors to the bucket, and its price is the
    price of the one of these trades that arrived last (the last in the
    history's order, whatever the timestamps). *)
Theorem getChartData_buckets :
  forall (toFixed : nat -> float -> string) (toLocaleTimeString : Z -> string)
         (d : WhaleDetector) (now : Z),
    Forall (fun t => exact_time (timestamp t)) (tradeHistory d) ->
    let h := tradeHistory d in
    let sb := sortedBuckets h now in
    let cd := getChartData toFixed toLocaleTimeString d now in
    labels cd = map (fun b => toLocaleTimeString (Bucket.timestamp b)) sb
    /\ prices cd = map (fun b => toFixed 2%nat (Bucket.price b)) sb
    /\ volumes cd = map (fun b => toFixed 4%nat (Bucket.totalVolume b)) sb
    /\ timestamps cd = map Bucket.timestamp sb
    /\ StronglySorted Z.lt (timestamps cd)
    /\ (forall t, In t h -> (now - 3600000 <= timestamp t)%Z ->
          In (bucketTime (timestamp t)) (timestamps cd))
    /\ (forall b, In b sb ->
          let ts := members (now - 3600000) (Bucket.timestamp b) h in
          ts <> []
          /\ Bucket.totalVolume b = sum_quantities ts
          /\ forall t0, Bucket.price b = price (last ts t0)).
Proof.
  intros toFixed toLocaleTimeString d now Hexact h sb cd.
  assert (Hcd :
    labels cd = map (fun b => toLocaleTimeString (Bucket.timestamp b)) sb
    /\ prices cd = map (fun b => toFixed 2%nat (Bucket.price b)) sb
    /\ volumes cd = map (fun b => toFixed 4%nat (Bucket.totalVolume b)) sb
    /\ timestamps cd = map Bucket.timestamp sb).
  { subst cd sb h. unfold getChartData.
    destruct (tradeHistory d); repeat split; reflexivity. }
  destruct Hcd as (Hl & Hp & Hv & Ht).
  repeat (split; [assumption|]).
  rewrite Ht. split; [apply sortedBuckets_strict|]. split.
  - intros t Hin Hw. now apply sortedBuckets_complete.
  - intros b Hin ts.
    destruct (sortedBuckets_summarises h now b Hin) as (_ & Hne & Hvol & _ & Hpr).
    now repeat split.
Qed.

Lemma getChartData_buckets_witness :
  In 1700000040000%Z
     (timestamps
        (getChartData no_rendering no_label
           (feed (new_WhaleDetector 1700000000000) out_of_order)
           1700000060000)).
Proof.
  refine (proj1 (proj2 (proj2 (proj2 (proj2 (proj2
            (getChartData_buckets no_rendering no_label
               (feed (new_WhaleDetector 1700000000000) out_of_order)
               1700000060000 _))))))
            {| price := 43000; quantity := 0.5; tradeValue := 21500;
               timestamp := 1700000050000; isWhale := false |} _ _).
  - repeat constructor.
  - vm_compute. left. reflexivity.
  - vm_compute. discriminate.
Defined.

Lemma collect_outside oneHourAgo (m : Map Bucket.t) t :
  (timestamp t < oneHourAgo)%Z -> collect oneHourAgo m t = m.
Proof.
  intros Hlt. unfold collect.
  destruct (Z.leb_spec oneHourAgo (timestamp t)); [lia | reflexivity].
Qed.

Lemma sortedBuckets_outside h now :
  (forall t, In t h -> (timestamp t < now - 3600000)%Z) ->
  sortedBuckets h now = [].
Proof.
  intros Hout. unfold sortedBuckets. change (60 * 60 * 1000)%Z with 3600000%Z.
  assert (E : forall m, fold_left (collect (now - 3600000)) h m = m).
  { induction h as [|t h IH]; intros m; [reflexivity|]. cbn [fold_left].
    rewrite collect_outside by (apply Hout; now left).
    apply IH. intros t' Hin. apply Hout. now right. }
  now rewrite E.
Qed.

(** C7: on an empty history, and on a history all of whose trades are
    older than the one-hour window, getChartData returns four empty
    sequences; being a total function it raises no error. *)
Theorem getChartData_empty :
  forall (toFixed : nat -> float -> string) (toLocaleTimeString : Z -> string)
         (d : WhaleDetector) (now : Z),
    tradeHistory d = []
    \/ (forall t, In t (tradeHistory d) -> (timestamp t < now - 3600000)%Z) ->
    getChartData toFixed toLocaleTimeString d now = empty_chart.
Proof.
  intros toFixed toLocaleTimeString d now H. unfold getChartData.
  destruct (tradeHistory d) as [|t h] eqn:E; [reflexivity|].
  destruct H as [H|H]; [discriminate H|].
  now rewrite sortedBuckets_outside by exact H.
Qed.

Lemma getChartData_empty_witness :
  tradeHistory stale_detector <> []
  /\ getChartData no_rendering no_label stale_detector 1700007200000
     = empty_chart.
Proof.
  split; [discriminate|].
  apply getChartData_empty. right.
  intros t Hin. vm_compute in Hin. destruct Hin as [<-|[]].
  reflexivity.
Defined.

(** ** Metrics and the volume counter *)

(** C8: on a fresh instance the trades (100, 1) and (600000, 1) leave
    whaleCount = 1 and maxWhaleAmount = 600000; and after every call that
    detects a whale, averageWhaleSize is maxWhaleAmount / whaleCount. *)
Theorem whale_metrics :
  (forall now T1 T2 tk1 tk2,
      let d := feed (new_WhaleDetector now) (two_trades T1 T2 tk1 tk2) in
      let m := metrics d in
      whaleCount m = 1%float /\ maxWhaleAmount m = 600000%float)
  /\ (forall m trade now,
         let m' := onWhaleDetected m trade now in
         averageWhaleSize m' = (maxWhaleAmount m' / whaleCount m')%float)
  /\ (forall d raw tk d' r,
         processTrade d (Some raw) tk = Normal (d', r) ->
         isWhale r = true ->
         averageWhaleSize (metrics d')
         = (maxWhaleAmount (metrics d') / whaleCount (metrics d'))%float).
Proof.
  split; [|split].
  - intros now T1 T2 tk1 tk2. split; reflexivity.
  - reflexivity.
  - intros d raw tk d' r Hcall Hwhale. call_result Hcall.
    unfold processTrade_body. cbn [metrics].
    change (isWhale (tradeRecord_of raw tk))
      with (gt (p raw * q raw) WHALE_THRESHOLD) in Hwhale.
    rewrite Hwhale. reflexivity.
Qed.

Lemma whale_metrics_witness :
  exists d' r,
    processTrade (new_WhaleDetector 1700000000000)
      (Some {| p := 600000; q := 1; T := None |}) sample_ticks
    = Normal (d', r)
    /\ averageWhaleSize (metrics d')
       = (maxWhaleAmount (metrics d') / whaleCount (metrics d'))%float.
Proof.
  eexists _, _. split; [reflexivity|].
  apply (proj2 (proj2 whale_metrics)
           (new_WhaleDetector 1700000000000)
           {| p := 600000; q := 1; T := None |} sample_ticks _ _ eq_refl).
  reflexivity.
Defined.

(** C9: reset clears the metrics and the history and leaves the last
    observed price: right after a processed trade, reset followed by
    getMetrics reports the price of that trade as currentPrice, which is
    not zero unless that price is. *)
Theorem reset_keeps_lastPrice :
  forall (toFixed : nat -> float -> string) d raw tk d' r,
    processTrade d (Some raw) tk = Normal (d', r) ->
    let snap := getMetrics toFixed (reset d') in
    currentPrice snap = price r
    /\ ((price r =? 0)%float = false -> (currentPrice snap =? 0)%float = false)
    /\ spread snap = zero_metrics
    /\ tradeHistory (reset d') = [].
Proof.
  intros toFixed d raw tk d' r Hcall snap. call_result Hcall.
  subst snap. cbn. repeat split. auto.
Qed.

Lemma reset_keeps_lastPrice_witness :
  exists d' r,
    processTrade (new_WhaleDetector 1700000000000)
      (Some {| p := 43000; q := 0.5; T := None |}) sample_ticks
    = Normal (d', r)
    /\ currentPrice (getMetrics no_rendering (reset d')) = 43000%float.
Proof.
  eexists _, _. split; [reflexivity|].
  apply (proj1 (reset_keeps_lastPrice no_rendering
                  (new_WhaleDetector 1700000000000)
                  {| p := 43000; q := 0.5; T := None |} sample_ticks
                  _ _ eq_refl)).
Defined.

(** C10: processTrade adds the quantity to the accumulated volume and then
    checks the 60 seconds: when more than 60000 ms have passed since the
    last reset, the call leaves the accumulated volume at 0, so the next
    getMetrics renders 0 as hourlyVolume whatever the quantity was, and the
    reset time becomes the clock reading; otherwise the quantity stays
    added. *)
Theorem volume_reset_after_add :
  forall (toFixed : nat -> float -> string) d raw tk d' r,
    processTrade d (Some raw) tk = Normal (d', r) ->
    ((60000 < tick_reset tk - lastVolumeResetTime d)%Z ->
       aggregatedVolume d' = 0%float
       /\ lastVolumeResetTime d' = tick_reset tk
       /\ hourlyVolume (getMetrics toFixed d') = toFixed 4%nat 0%float)
    /\ ((tick_reset tk - lastVolumeResetTime d <= 60000)%Z ->
       aggregatedVolume d' = (aggregatedVolume d + q raw)%float
       /\ lastVolumeResetTime d' = lastVolumeResetTime d).
Proof.
  intros toFixed d raw tk d' r Hcall. call_result Hcall.
  unfold getMetrics. cbn.
  destruct (Z.ltb_spec 60000 (tick_reset tk - lastVolumeResetTime d)).
  - split; [now repeat split | lia].
  - split; [lia | now repeat split].
Qed.

Lemma volume_reset_after_add_witness :
  exists d' r,
    processTrade (new_WhaleDetector 1700000000000)
      (Some {| p := 43000; q := 0.5; T := None |}) late_ticks
    = Normal (d', r)
    /\ aggregatedVolume d' = 0%float.
Proof.
  eexists _, _. split; [reflexivity|].
  apply (proj1 (volume_reset_after_add no_rendering
                  (new_WhaleDetector 1700000000000)
                  {| p := 43000; q := 0.5; T := None |} late_ticks
                  _ _ eq_refl)).
  reflexivity.
Defined.

(** ** The indicators *)

#[local] Set Warnings "-inexact-float".

(** C5: on the closes 10, 20, 30 with period 2 the specification's moving
    average is 25, seeded by (10 + 20) / 2 = 15; calculateEMA seeds with
    the mean of the last two closes, (20 + 30) / 2 = 25, applies the
    recurrence to the close 30 and returns 28.33..., not 25. *)
Theorem calculateEMA_seeds_with_last_closes :
  spec_EMA [10; 20; 30]%float 2 = Some 25%float
  /\ calculateEMA [10; 20; 30]%float 2
     = Some (ema_step (2 / 3) ((20 + 30) / 2) 30)%float
  /\ calculateEMA [10; 20; 30]%float 2 = Some 28.333333333333336%float
  /\ calculateEMA [10; 20; 30]%float 2 <> Some 25%float
  /\ calculateEMA [10; 20]%float 3 = None.
Proof.
  repeat split; try reflexivity.
  intros E.
  apply (f_equal (fun o => match o with
                           | Some x => (x =? 25)%float
                           | None => true
                           end)) in E.
  vm_compute in E. discriminate E.
Qed.

(** C6: on fifteen rising closes every one of the 14 trailing deltas is a
    gain, the average loss is zero, and calculateRSI returns
    100 - 100 / 101 = 99.0099..., not 100: the branch of the zero loss sets
    the ratio rs to 100 and the result is still computed from it. *)
Theorem calculateRSI_zero_loss_not_100 :
  snd (gains_losses rising_closes 14) = 0%float
  /\ calculateRSI rising_closes 14 = (100 - 100 / 101)%float
  /\ calculateRSI rising_closes 14 <> 100%float
  /\ (calculateRSI rising_closes 14 <? 100)%float = true.
Proof.
  repeat split; try reflexivity.
  apply float_neq; reflexivity.
Qed.

(** What [calculateRSI] does hold of the claim: 50 on fewer than
    period + 1 closes, and otherwise the value computed from the ratio. *)
Lemma calculateRSI_short (prices : list float) (period : nat) :
  (length prices < period + 1)%nat -> calculateRSI prices period = 50%float.
Proof.
  intros H. unfold calculateRSI.
  destruct (Nat.ltb_spec (length prices) (period + 1)); [reflexivity | lia].
Qed.

Lemma calculateRSI_zero_loss (prices : list float) (period : nat) :
  (period + 1 <= length prices)%nat ->
  (snd (gains_losses prices period) / of_nat period =? 0)%float = true ->
  calculateRSI prices period = (100 - 100 / (1 + 100))%float.
Proof.
  intros H Hz. unfold calculateRSI.
  destruct (Nat.ltb_spec (length prices) (period + 1)); [lia|].
  cbv zeta. now rewrite Hz.
Qed.

Lemma calculateEMA_short (prices : list float) (period : nat) :
  (length prices < period)%nat -> calculateEMA prices period = None.
Proof.
  intros H. unfold calculateEMA.
  destruct (Nat.ltb_spec (length prices) period); [reflexivity | lia].
Qed.


(** ** Runs of the detector *)

Lemma on_message_record (d : WhaleDetector) raw tk :
  on_message d (Some raw, tk) = fst (processTrade_body d raw tk).
Proof. reflexivity. Qed.

Lemma on_message_null (d : WhaleDetector) tk : on_message d (None, tk) = d.
Proof. reflexivity. Qed.

(** X1: the events on which processTrade throws leave no trace: a run over
    a sequence of events ends in the state of the run over its record
    events alone. *)
Theorem feed_skips_thrown :
  forall (d : WhaleDetector) (evs : list (option RawTrade * Ticks)),
    feed d evs = feed d (filter is_record evs).
Proof.
  intros d evs. revert d.
  induction evs as [|[[raw|] tk] evs IH]; intros d; cbn [filter is_record fst].
  - reflexivity.
  - unfold feed in *. cbn [fold_left]. apply IH.
  - unfold feed in *. cbn [fold_left]. rewrite on_message_null. apply IH.
Qed.

Lemma whales_of_snoc evs ev :
  whales_of (evs ++ [ev])
  = whales_of evs ++ match fst ev with
                     | Some raw =>
                         if isWhale (tradeRecord_of raw (snd ev))
                         then [tradeRecord_of raw (snd ev)] else []
                     | None => []
                     end.
Proof.
  unfold whales_of. rewrite records_of_snoc, filter_app.
  destruct (fst ev) as [raw|]; cbn [filter]; [|reflexivity].
  now destruct (isWhale (tradeRecord_of raw (snd ev))).
Qed.

(** X2: over a whole run the whale metrics are those of the whale records
    that arrived, whether the history still holds them or not: whaleCount
    has been incremented once per whale, maxWhaleAmount is the running
    Math.max of their notional values, averageWhaleSize is their quotient
    as soon as one whale arrived, and without a whale the metrics are
    untouched. *)
Theorem whale_metrics_of_run :
  forall (d : WhaleDetector) (evs : list (option RawTrade * Ticks)),
    let m := metrics (feed d evs) in
    whaleCount m
    = fold_left (fun c _ => (c + 1)%float) (whales_of evs)
                (whaleCount (metrics d))
    /\ maxWhaleAmount m
       = fold_left Math_max (map tradeValue (whales_of evs))
                   (maxWhaleAmount (metrics d))
    /\ (whales_of evs = [] -> m = metrics d)
    /\ (whales_of evs <> [] ->
        averageWhaleSize m = (maxWhaleAmount m / whaleCount m)%float).
Proof.
  intros d evs. cbv zeta.
  induction evs as [|[[raw|] tk] evs IH] using rev_ind.
  - cbn. repeat split. congruence.
  - rewrite feed_snoc, whales_of_snoc, on_message_record. cbn [fst snd].
    destruct IH as (Hc & Hm & Hnone & Havg).
    unfold processTrade_body. cbn [fst metrics].
    change (tradeValue (tradeRecord_of raw tk)) with (p raw * q raw)%float.
    change (isWhale (tradeRecord_of raw tk))
      with (gt (p raw * q raw) WHALE_THRESHOLD).
    destruct (gt (p raw * q raw) WHALE_THRESHOLD) eqn:Hw.
    + rewrite map_app, !fold_left_app. cbn [map fold_left].
      unfold onWhaleDetected. cbn.
      rewrite <- Hc, <- Hm. repeat split.
      intros E. now destruct (whales_of evs).
    + rewrite app_nil_r. now repeat split.
  - rewrite feed_snoc, whales_of_snoc, on_message_null. cbn [fst].
    rewrite app_nil_r. exact IH.
Qed.

Lemma whale_metrics_of_run_witness :
  averageWhaleSize
    (metrics (feed (new_WhaleDetector 0)
                (two_trades None None sample_ticks sample_ticks)))
  = 600000%float.
Proof.
  rewrite (proj2 (proj2 (proj2
            (whale_metrics_of_run (new_WhaleDetector 0)
               (two_trades None None sample_ticks sample_ticks))))).
  - reflexivity.
  - discriminate.
Defined.

Lemma push_bounded_Forall (P : TradeRecord -> Prop) h r :
  Forall P h -> P r -> Forall P (push_bounded h r).
Proof.
  intros Hh Hr. unfold push_bounded.
  assert (H1 : Forall P (h ++ [r])).
  { apply Forall_app. split; [exact Hh | now constructor]. }
  destruct (MAX_HISTORY <? length (h ++ [r]))%nat; [|exact H1].
  destruct (h ++ [r]); [constructor | now inversion H1].
Qed.

Lemma consistent_tradeRecord_of raw tk : consistent (tradeRecord_of raw tk).
Proof. split; reflexivity. Qed.

(** X3: the records of the history stay consistent over any run: each one
    has tradeValue = price * quantity and isWhale set exactly when that
    value is above the threshold; on a fresh instance this holds of every
    record the history ever shows. *)
Theorem tradeHistory_consistent :
  forall (evs : list (option RawTrade * Ticks)),
    (forall now, Forall consistent (tradeHistory (feed (new_WhaleDetector now) evs)))
    /\ (forall d, Forall consistent (tradeHistory d) ->
                  Forall consistent (tradeHistory (feed d evs))).
Proof.
  assert (H : forall evs d, Forall consistent (tradeHistory d) ->
                            Forall consistent (tradeHistory (feed d evs))).
  { induction evs as [|[[raw|] tk] evs IH]; intros d Hd; [exact Hd| |].
    - unfold feed. cbn [fold_left]. apply IH.
      rewrite tradeHistory_on_message.
      apply push_bounded_Forall; [exact Hd | apply consistent_tradeRecord_of].
    - unfold feed. cbn [fold_left]. rewrite on_message_null. now apply IH. }
  intros evs. split; [|apply H].
  intros now. apply H. constructor.
Qed.

Lemma tradeHistory_consistent_witness :
  Forall consistent (tradeHistory (feed stale_detector out_of_order)).
Proof.
  apply (proj2 (tradeHistory_consistent out_of_order) stale_detector).
  repeat constructor.
Defined.

Lemma feed_congruence evs :
  forall d1 d2,
    tradeHistory d1 = tradeHistory d2 -> metrics d1 = metrics d2 ->
    tradeHistory (feed d1 evs) = tradeHistory (feed d2 evs)
    /\ metrics (feed d1 evs) = metrics (feed d2 evs).
Proof.
  induction evs as [|[[raw|] tk] evs IH]; intros d1 d2 Hh Hm.
  - now split.
  - unfold feed. cbn [fold_left]. apply IH.
    + rewrite !tradeHistory_on_message. now rewrite Hh.
    + rewrite !on_message_record. unfold processTrade_body.
      cbn [fst metrics]. now rewrite Hm.
  - unfold feed. cbn [fold_left]. rewrite !on_message_null. now apply IH.
Qed.

(** X4: after reset the detector runs like a new one as far as the history
    and the metrics go: whatever it had processed before, the same events
    give the same history and the same metrics as on a fresh instance;
    what reset keeps is the last price and the time of the last volume
    reset. *)
Theorem reset_then_feed :
  forall (d : WhaleDetector) (now : Z) (evs : list (option RawTrade * Ticks)),
    tradeHistory (feed (reset d) evs)
    = tradeHistory (feed (new_WhaleDetector now) evs)
    /\ metrics (feed (reset d) evs)
       = metrics (feed (new_WhaleDetector now) evs)
    /\ lastPrice (reset d) = lastPrice d
    /\ lastVolumeResetTime (reset d) = lastVolumeResetTime d.
Proof.
  intros d now evs.
  destruct (feed_congruence evs (reset d) (new_WhaleDetector now)
              eq_refl eq_refl) as [Hh Hm].
  now repeat split.
Qed.

(** X5: the time of the last volume reset never moves back over a run,
    whatever the clock readings are: a call either leaves it or replaces it
    by a reading more than 60000 ms above it. *)
Theorem lastVolumeResetTime_monotone :
  forall (d : WhaleDetector) (evs : list (option RawTrade * Ticks)),
    (lastVolumeResetTime d <= lastVolumeResetTime (feed d evs))%Z.
Proof.
  intros d evs. revert d.
  induction evs as [|[[raw|] tk] evs IH]; intros d.
  - cbn. lia.
  - unfold feed. cbn [fold_left]. fold (feed (on_message d (Some raw, tk)) evs).
    specialize (IH (on_message d (Some raw, tk))).
    rewrite on_message_record in *. unfold processTrade_body in *.
    cbn [fst lastVolumeResetTime] in *.
    destruct (Z.ltb_spec 60000 (tick_reset tk - lastVolumeResetTime d)); lia.
  - unfold feed. cbn [fold_left]. rewrite on_message_null. apply IH.
Qed.

(** X6: as long as every record event is handled at most 60000 ms after
    the last volume reset, no reset happens: the accumulated volume is the
    volume before the run plus the quantities of the records in arrival
    order, and the reset time is unchanged. *)
Theorem aggregatedVolume_accumulates :
  forall (d : WhaleDetector) (evs : list (option RawTrade * Ticks)),
    Forall (fun ev => (tick_reset (snd ev) - lastVolumeResetTime d <= 60000)%Z)
           (filter is_record evs) ->
    aggregatedVolume (feed d evs)
    = fold_left PrimFloat.add (map quantity (records_of evs))
                (aggregatedVolume d)
    /\ lastVolumeResetTime (feed d evs) = lastVolumeResetTime d.
Proof.
  intros d evs. revert d.
  induction evs as [|[[raw|] tk] evs IH]; intros d Hall.
  - now split.
  - cbn [filter is_record fst] in Hall. inversion Hall as [|? ? Hhd Htl]; subst.
    cbn [snd] in Hhd.
    unfold feed. cbn [fold_left]. fold (feed (on_message d (Some raw, tk)) evs).
    assert (Hstep : aggregatedVolume (on_message d (Some raw, tk))
                    = (aggregatedVolume d + q raw)%float
                    /\ lastVolumeResetTime (on_message d (Some raw, tk))
                       = lastVolumeResetTime d).
    { rewrite on_message_record. unfold processTrade_body.
      cbn [fst aggregatedVolume lastVolumeResetTime].
      destruct (Z.ltb_spec 60000 (tick_reset tk - lastVolumeResetTime d));
        [lia | now split]. }
    destruct Hstep as [Hv Ht].
    destruct (IH (on_message d (Some raw, tk))) as [IHv IHt].
    { now rewrite Ht. }
    rewrite IHv, IHt, Hv, Ht. now split.
  - cbn [filter is_record fst] in Hall.
    unfold feed. cbn [fold_left]. rewrite on_message_null. now apply IH.
Qed.

Lemma aggregatedVolume_accumulates_witness :
  aggregatedVolume (feed (new_WhaleDetector 1700000000000) early_events)
  = 0.75%float.
Proof.
  rewrite (proj1 (aggregatedVolume_accumulates
                    (new_WhaleDetector 1700000000000) early_events
                    ltac:(repeat constructor; cbn; lia))).
  reflexivity.
Defined.

(** X7: the price getMetrics reports as currentPrice is the price of the
    last record that arrived, also after that record has left the history;
    before any record it is the price the run started with. *)
Theorem currentPrice_is_last_price :
  forall (toFixed : nat -> float -> string) (d : WhaleDetector)
         (evs : list (option RawTrade * Ticks)),
    currentPrice (getMetrics toFixed (feed d evs))
    = last (map price (records_of evs)) (lastPrice d).
Proof.
  intros toFixed d evs. cbn [getMetrics currentPrice].
  induction evs as [|[[raw|] tk] evs IH] using rev_ind.
  - reflexivity.
  - rewrite feed_snoc, records_of_snoc, map_app, on_message_record.
    cbn. now rewrite last_last.
  - rewrite feed_snoc, records_of_snoc, on_message_null. cbn [fst].
    now rewrite app_nil_r.
Qed.

(** ** The chart series: more of what it shows *)

Lemma length_set {V : Type} (k : Z) (v : V) (m : Map V) :
  length (JS.set k v m) = if has k m then length m else S (length m).
Proof.
  induction m as [|[k' v'] m IH]; cbn; [reflexivity|].
  destruct (k =? k')%Z; cbn; [reflexivity|].
  rewrite IH. now destruct (has k m).
Qed.

Lemma has_set_same {V : Type} (k : Z) (v : V) (m : Map V) :
  has k (JS.set k v m) = true.
Proof. now rewrite has_get, get_set_same. Qed.

Lemma collect_length oneHourAgo (m : Map Bucket.t) t :
  (length (collect oneHourAgo m t) <= S (length m))%nat.
Proof.
  unfold collect. destruct (oneHourAgo <=? timestamp t)%Z; [|lia].
  set (bt := bucketTime (timestamp t)).
  destruct (has bt m) eqn:Hhas.
  - destruct (get bt m) as [b|]; [|lia].
    rewrite length_set, Hhas. lia.
  - rewrite get_set_same, length_set, has_set_same, length_set, Hhas. lia.
Qed.

Lemma collect_fold_length oneHourAgo h :
  forall m : Map Bucket.t,
    (length (fold_left (collect oneHourAgo) h m) <= length m + length h)%nat.
Proof.
  induction h as [|t h IH]; intros m; cbn [fold_left length]; [lia|].
  specialize (IH (collect oneHourAgo m t)).
  pose proof (collect_length oneHourAgo m t). lia.
Qed.

Lemma sortedBuckets_length h now :
  (length (sortedBuckets h now) <= length h)%nat.
Proof.
  unfold sortedBuckets.
  rewrite <- (Permutation_length (sort_buckets_perm _)).
  unfold values. rewrite length_map.
  apply (collect_fold_length _ h []).
Qed.

(** X8: the four sequences getChartData returns are parallel: they have
    the same length, which is at most the number of trades of the history,
    hence at most MAX_HISTORY on an instance that was fed from new. *)
Theorem chart_series_parallel :
  forall (toFixed : nat -> float -> string) (toLocaleTimeString : Z -> string)
         (d : WhaleDetector) (now : Z),
    let cd := getChartData toFixed toLocaleTimeString d now in
    length (labels cd) = length (timestamps cd)
    /\ length (prices cd) = length (timestamps cd)
    /\ length (volumes cd) = length (timestamps cd)
    /\ (length (timestamps cd) <= length (tradeHistory d))%nat
    /\ (forall now0 evs, d = feed (new_WhaleDetector now0) evs ->
                         (length (timestamps cd) <= MAX_HISTORY)%nat).
Proof.
  intros toFixed toLocaleTimeString d now cd.
  assert (Hlen : length (labels cd) = length (timestamps cd)
                 /\ length (prices cd) = length (timestamps cd)
                 /\ length (volumes cd) = length (timestamps cd)
                 /\ (length (timestamps cd) <= length (tradeHistory d))%nat).
  { subst cd. unfold getChartData.
    destruct (tradeHistory d) as [|t h] eqn:E; cbn [labels prices volumes timestamps];
      [cbn; repeat split; lia|].
    rewrite !length_map. repeat split. apply sortedBuckets_length. }
  destruct Hlen as (H1 & H2 & H3 & H4). repeat split; try assumption.
  intros now0 evs ->. etransitivity; [exact H4|].
  rewrite tradeHistory_feed, length_skipn. lia.
Qed.

Lemma chart_series_parallel_witness :
  (length (timestamps (getChartData no_rendering no_label
                         (feed (new_WhaleDetector 0) events_3601) 3601))
   <= MAX_HISTORY)%nat.
Proof.
  exact (proj2 (proj2 (proj2 (proj2
           (chart_series_parallel no_rendering no_label
              (feed (new_WhaleDetector 0) events_3601) 3601))))
           0%Z events_3601 eq_refl).
Defined.

Lemma chart_timestamps toFixed toLocaleTimeString d now :
  timestamps (getChartData toFixed toLocaleTimeString d now)
  = map Bucket.timestamp (sortedBuckets (tradeHistory d) now).
Proof. unfold getChartData. now destruct (tradeHistory d). Qed.

(** X9: on a history whose timestamps are exact instants (integers below
    2^53 in absolute value), every bucket timestamp getChartData emits is a
    whole minute (a multiple of 60000 ms), is the floor of the timestamp of
    a trade of the history that lies inside the window, and is therefore
    less than 61 minutes older than [now]. *)
Theorem chart_timestamps_whole_minutes :
  forall (toFixed : nat -> float -> string) (toLocaleTimeString : Z -> string)
         (d : WhaleDetector) (now ts : Z),
    Forall (fun t => exact_time (timestamp t)) (tradeHistory d) ->
    In ts (timestamps (getChartData toFixed toLocaleTimeString d now)) ->
    (ts mod 60000 = 0)%Z
    /\ (now - 3660000 < ts)%Z
    /\ exists t, In t (tradeHistory d)
                 /\ (now - 3600000 <= timestamp t)%Z
                 /\ (ts <= timestamp t < ts + 60000)%Z
                 /\ bucketTime (timestamp t) = ts.
Proof.
  intros toFixed toLocaleTimeString d now ts Hexact Hin.
  rewrite chart_timestamps in Hin.
  apply in_map_iff in Hin as (b & <- & Hb).
  destruct (sortedBuckets_summarises _ _ _ Hb) as (_ & Hne & _).
  destruct (members (now - 3600000) (Bucket.timestamp b) (tradeHistory d))
    as [|t ts'] eqn:E; [congruence|].
  assert (Ht : In t (members (now - 3600000) (Bucket.timestamp b)
                       (tradeHistory d))) by (rewrite E; now left).
  apply filter_In in Ht as [Hth Hbk]. unfold in_bucket in Hbk.
  apply andb_prop in Hbk as [Hw Hk].
  apply Z.leb_le in Hw. apply Z.eqb_eq in Hk.
  assert (Hdiv : (Bucket.timestamp b <= timestamp t
                  < Bucket.timestamp b + 60000)%Z).
  { rewrite <- Hk. unfold bucketTime.
    pose proof (Z.mul_div_le (timestamp t) 60000 eq_refl).
    pose proof (Z.mul_succ_div_gt (timestamp t) 60000 eq_refl). lia. }
  split; [|split].
  - rewrite <- Hk. unfold bucketTime. now apply Z_mod_mult.
  - lia.
  - exists t. repeat split; try assumption; lia.
Qed.

Lemma chart_timestamps_whole_minutes_witness :
  (1700000040000 mod 60000 = 0)%Z /\ (1700000060000 - 3660000 < 1700000040000)%Z.
Proof.
  destruct (chart_timestamps_whole_minutes no_rendering no_label
              (feed (new_WhaleDetector 1700000000000) out_of_order)
              1700000060000 1700000040000) as (H1 & H2 & _).
  - repeat constructor.
  - vm_compute. left. reflexivity.
  - split; assumption.
Defined.

Lemma collect_fold_window now h :
  forall m : Map Bucket.t,
    fold_left (collect (now - 3600000)) (filter (in_window now) h) m
    = fold_left (collect (now - 3600000)) h m.
Proof.
  induction h as [|t h IH]; intros m; [reflexivity|].
  cbn [filter fold_left]. unfold in_window at 1.
  destruct (Z.leb_spec (now - 3600000) (timestamp t)) as [Hin|Hout].
  - cbn [fold_left]. apply IH.
  - rewrite (collect_outside _ m t Hout). apply IH.
Qed.

(** X10: getChartData depends on the trades of the window only: an
    instance whose history is what remains of another one's after the
    trades older than one hour are dropped returns the same chart. *)
Theorem chart_ignores_old_trades :
  forall (toFixed : nat -> float -> string) (toLocaleTimeString : Z -> string)
         (d d' : WhaleDetector) (now : Z),
    tradeHistory d' = filter (in_window now) (tradeHistory d) ->
    getChartData toFixed toLocaleTimeString d' now
    = getChartData toFixed toLocaleTimeString d now.
Proof.
  intros toFixed toLocaleTimeString d d' now E.
  assert (Hsb : sortedBuckets (tradeHistory d') now
                = sortedBuckets (tradeHistory d) now).
  { unfold sortedBuckets. change (60 * 60 * 1000)%Z with 3600000%Z.
    now rewrite E, collect_fold_window. }
  unfold getChartData.
  destruct (tradeHistory d') as [|t' h'] eqn:E';
    destruct (tradeHistory d) as [|t h] eqn:Eh.
  - reflexivity.
  - rewrite <- Hsb. reflexivity.
  - discriminate E.
  - now rewrite Hsb.
Qed.

Lemma chart_ignores_old_trades_witness :
  getChartData no_rendering no_label (reset stale_detector) 1700007200000
  = getChartData no_rendering no_label stale_detector 1700007200000.
Proof.
  apply chart_ignores_old_trades. reflexivity.
Defined.

(** ** The indicators: the closes they read *)

Lemma slice_last_app {A} (n : nat) (pre l : list A) :
  (0 < n)%nat -> length l = n -> slice_last n (pre ++ l) = l.
Proof.
  intros Hpos Hlen. unfold slice_last. destruct n as [|n]; [lia|].
  rewrite length_app, Hlen.
  replace (length pre + S n - S n)%nat with (length pre + 0)%nat by lia.
  rewrite skipn_app, Nat.add_0_r, skipn_all, Nat.sub_diag. reflexivity.
Qed.

(** X11: calculateSMA is absent exactly when there are fewer closes than
    the period, and otherwise reads the last [period] closes only: on any
    chart that ends with the closes [l], it is the sum of [l], accumulated
    from 0 in order, divided by the period. *)
Theorem calculateSMA_window :
  forall (pre l : list float) (period : nat),
    (calculateSMA l period = None <-> (length l < period)%nat)
    /\ ((0 < period)%nat -> length l = period ->
        calculateSMA (pre ++ l) period
        = Some (fold_left PrimFloat.add l 0 / of_nat period)%float).
Proof.
  intros pre l period. split.
  - unfold calculateSMA.
    destruct (Nat.ltb_spec (length l) period); split;
      try discriminate; try lia; reflexivity.
  - intros Hpos Hlen. unfold calculateSMA.
    destruct (Nat.ltb_spec (length (pre ++ l)) period) as [Hlt|Hge].
    + rewrite length_app in Hlt. lia.
    + now rewrite slice_last_app.
Qed.

Lemma calculateSMA_window_witness :
  calculateSMA (older_closes ++ last_closes) 3
  = Some (fold_left PrimFloat.add last_closes 0 / of_nat 3)%float.
Proof.
  apply (proj2 (calculateSMA_window older_closes last_closes 3)).
  - lia.
  - reflexivity.
Defined.

(** X12: on exactly [period] closes no round of the recurrence runs and
    calculateEMA returns what calculateSMA returns; and the two are absent
    on the same inputs. *)
Theorem calculateEMA_on_period_closes :
  forall (prices : list float) (period : nat),
    (calculateEMA prices period = None <-> calculateSMA prices period = None)
    /\ (length prices = period ->
        calculateEMA prices period = calculateSMA prices period).
Proof.
  intros prices period. unfold calculateEMA, calculateSMA. split.
  - destruct (length prices <? period)%nat; split;
      try discriminate; reflexivity.
  - intros Hlen.
    destruct (length prices <? period)%nat; [reflexivity|].
    cbv zeta. rewrite <- Hlen, skipn_all. reflexivity.
Qed.

Lemma calculateEMA_on_period_closes_witness :
  calculateEMA last_closes 3 = calculateSMA last_closes 3.
Proof.
  apply (proj2 (calculateEMA_on_period_closes last_closes 3)).
  reflexivity.
Defined.

Lemma rsi_step_shift (pre l : list float) (acc : float * float) (i : nat) :
  (1 <= i)%nat ->
  rsi_step (pre ++ l) acc (length pre + i) = rsi_step l acc i.
Proof.
  intros Hi. unfold rsi_step.
  rewrite !app_nth2 by lia.
  replace (length pre + i - length pre)%nat with i by lia.
  replace (length pre + i - 1 - length pre)%nat with (i - 1)%nat by lia.
  reflexivity.
Qed.

Lemma rsi_fold_shift (pre l : list float) (n : nat) :
  forall (s : nat) (acc : float * float),
    (1 <= s)%nat ->
    fold_left (rsi_step (pre ++ l)) (seq (length pre + s) n) acc
    = fold_left (rsi_step l) (seq s n) acc.
Proof.
  induction n as [|n IH]; intros s acc Hs; [reflexivity|].
  cbn [seq fold_left]. rewrite rsi_step_shift by exact Hs.
  replace (S (length pre + s)) with (length pre + S s)%nat by lia.
  apply IH. lia.
Qed.

(** X13: calculateRSI reads the last [period + 1] closes only: on any
    chart that ends with the [period + 1] closes [l] it returns what it
    returns on [l] alone. *)
Theorem calculateRSI_window :
  forall (pre l : list float) (period : nat),
    length l = (period + 1)%nat ->
    calculateRSI (pre ++ l) period = calculateRSI l period.
Proof.
  intros pre l period Hlen. unfold calculateRSI.
  destruct (Nat.ltb_spec (length (pre ++ l)) (period + 1)) as [Hlt|_].
  { rewrite length_app in Hlt. lia. }
  destruct (Nat.ltb_spec (length l) (period + 1)) as [Hlt|_]; [lia|].
  assert (E : gains_losses (pre ++ l) period = gains_losses l period).
  { unfold gains_losses. rewrite length_app, Hlen.
    replace (length pre + (period + 1) - period)%nat
      with (length pre + 1)%nat by lia.
    replace (period + 1 - period)%nat with 1%nat by lia.
    now apply rsi_fold_shift. }
  now rewrite E.
Qed.

Lemma calculateRSI_window_witness :
  calculateRSI (older_closes ++ last_closes) 2 = calculateRSI last_closes 2.
Proof.
  apply calculateRSI_window. reflexivity.
Defined.

(** ** The trading UI: candles *)

Lemma candle_group_snoc intervalMs k h t :
  candle_group intervalMs k (h ++ [t])
  = candle_group intervalMs k h
    ++ (if (candleBucketTime intervalMs (timestamp t) =? k)%Z then [t] else []).
Proof. unfold candle_group. now rewrite filter_app. Qed.

Lemma candle_summary_snoc k t1 rest t :
  {| Candle.time := Candle.time (candle_summary k t1 rest);
     Candle.open := Candle.open (candle_summary k t1 rest);
     Candle.high := Math_max (Candle.high (candle_summary k t1 rest)) (price t);
     Candle.low := Math_min (Candle.low (candle_summary k t1 rest)) (price t);
     Candle.close := price t;
     Candle.volume :=
       (Candle.volume (candle_summary k t1 rest) + quantity t)%float |}
  = candle_summary k t1 (rest ++ [t]).
Proof.
  unfold candle_summary. cbn.
  now rewrite !map_app, !fold_left_app, last_last.
Qed.

Lemma candles_built_step intervalMs h m t :
  candles_built intervalMs h m ->
  candles_built intervalMs (h ++ [t]) (candle_step intervalMs m t).
Proof.
  intros [Hnd Hall]. unfold candle_step.
  set (bt := candleBucketTime intervalMs (timestamp t)).
  assert (Hother : forall k, k <> bt ->
            candle_group intervalMs k (h ++ [t]) = candle_group intervalMs k h).
  { intros k Hk. rewrite candle_group_snoc. fold bt.
    destruct (Z.eqb_spec bt k); [congruence | apply app_nil_r]. }
  assert (Hsame : candle_group intervalMs bt (h ++ [t])
                  = candle_group intervalMs bt h ++ [t]).
  { rewrite candle_group_snoc. fold bt. now rewrite Z.eqb_refl. }
  pose proof (Hall bt) as Hbt. rewrite has_get.
  destruct (get bt m) as [c|] eqn:Ec; cbn [negb].
  - split; [now apply NoDup_keys_set|].
    intros k. destruct (Z.eq_dec k bt) as [->|Hk].
    + rewrite get_set_same, Hsame.
      destruct Hbt as (t1 & rest & Hg & ->).
      exists t1, (rest ++ [t]). rewrite Hg. split; [reflexivity|].
      apply candle_summary_snoc.
    + rewrite get_set_other by exact Hk. rewrite (Hother k Hk). apply Hall.
  - split; [now apply NoDup_keys_set|].
    intros k. destruct (Z.eq_dec k bt) as [->|Hk].
    + rewrite get_set_same, Hsame, Hbt. exists t, []. now split.
    + rewrite get_set_other by exact Hk. rewrite (Hother k Hk). apply Hall.
Qed.

Lemma candles_built_fold intervalMs h :
  candles_built intervalMs h (fold_left (candle_step intervalMs) h []).
Proof.
  induction h as [|t h IH] using rev_ind.
  - split; [constructor | reflexivity].
  - rewrite fold_left_app. now apply candles_built_step.
Qed.

Lemma insert_candle_perm c l : Permutation (c :: l) (insert_candle c l).
Proof.
  induction l as [|x l IH]; cbn; [reflexivity|].
  destruct (Candle.time c <=? Candle.time x)%Z; [reflexivity|].
  rewrite perm_swap. now constructor.
Qed.

Lemma sort_candles_perm l : Permutation l (sort_candles l).
Proof.
  induction l as [|c l IH]; cbn; [constructor|].
  rewrite <- insert_candle_perm. now constructor.
Qed.

Lemma insert_candle_sorted c l :
  StronglySorted (fun a b => (Candle.time a <= Candle.time b)%Z) l ->
  StronglySorted (fun a b => (Candle.time a <= Candle.time b)%Z)
                 (insert_candle c l).
Proof.
  induction 1 as [|x l Hl IH Hx]; cbn.
  - constructor; constructor.
  - destruct (Z.leb_spec (Candle.time c) (Candle.time x)) as [Hle|Hgt].
    + constructor; [now constructor|]. constructor; [exact Hle|].
      eapply Forall_impl; [|exact Hx]. cbn. intros; lia.
    + constructor; [exact IH|].
      rewrite <- (insert_candle_perm c l). constructor; [lia | exact Hx].
Qed.

Lemma sort_candles_sorted l :
  StronglySorted (fun a b => (Candle.time a <= Candle.time b)%Z)
                 (sort_candles l).
Proof.
  induction l as [|c l IH]; cbn; [constructor|].
  now apply insert_candle_sorted.
Qed.

Lemma sorted_strict (l : list Candle.t) :
  StronglySorted (fun a b => (Candle.time a <= Candle.time b)%Z) l ->
  NoDup (map Candle.time l) ->
  StronglySorted Z.lt (map Candle.time l).
Proof.
  induction 1 as [|x l Hl IH Hx]; cbn; intros Hnd.
  - constructor.
  - inversion Hnd as [|? ? Hnin Hnd']; subst.
    constructor; [now apply IH|].
    rewrite Forall_forall in *. intros z Hz.
    apply in_map_iff in Hz as Hz'. destruct Hz' as (y & <- & Hy).
    specialize (Hx y Hy). cbn in Hx.
    destruct (Z.eq_dec (Candle.time x) (Candle.time y)) as [E|Hne]; [|lia].
    exfalso. apply Hnin. now rewrite E.
Qed.

Lemma NoDup_map_on {A B} (f : A -> B) (l : list A) :
  NoDup l ->
  (forall x y, In x l -> In y l -> f x = f y -> x = y) ->
  NoDup (map f l).
Proof.
  induction 1 as [|x l Hx Hl IH]; cbn; intros Hinj; constructor.
  - intros Hin. apply in_map_iff in Hin as (y & Hy & Hyl).
    apply Hx. rewrite <- (Hinj y x); auto.
  - apply IH. intros y z Hy Hz. apply Hinj; now right.
Qed.

Lemma candles_of_In allTrades interval c :
  In c (candles_of allTrades interval) ->
  exists k, get k (fold_left (candle_step (interval * 60 * 1000)) allTrades [])
            = Some c.
Proof.
  unfold candles_of.
  pose proof (candles_built_fold (interval * 60 * 1000) allTrades) as [Hnd _].
  intros Hin.
  apply (Permutation_in _ (Permutation_sym (sort_candles_perm _))) in Hin.
  unfold values in Hin. apply in_map_iff in Hin as ([k c'] & Hc & Hin).
  cbn in Hc. subst c'. exists k. now apply get_In.
Qed.

Lemma candles_of_summary allTrades interval c :
  In c (candles_of allTrades interval) ->
  exists k t1 rest,
    candle_group (interval * 60 * 1000) k allTrades = t1 :: rest
    /\ c = candle_summary k t1 rest.
Proof.
  intros Hin. apply candles_of_In in Hin as [k Hk].
  destruct (candles_built_fold (interval * 60 * 1000) allTrades) as [_ Hall].
  specialize (Hall k). rewrite Hk in Hall.
  destruct Hall as (t1 & rest & Hg & Hc). now exists k, t1, rest.
Qed.

(** X14: every candle buildCandleData computes is the summary of the
    trades of one bucket of the interval, taken in arrival order: it opens
    at the price of the first of them, closes at the price of the last,
    high and low are the running Math.max and Math.min of their prices, the
    volume is the sum of their quantities, and the time is the start of the
    bucket in seconds; and every trade has the candle of its bucket. *)
Theorem candles_summarise_buckets :
  forall (allTrades : list TradeRecord) (interval : Z),
    (0 < interval)%Z ->
    let intervalMs := (interval * 60 * 1000)%Z in
    (forall c, In c (candles_of allTrades interval) ->
       exists k t1 rest,
         candle_group intervalMs k allTrades = t1 :: rest
         /\ c = candle_summary k t1 rest
         /\ (k mod intervalMs = 0)%Z)
    /\ (forall t, In t allTrades ->
          exists c, In c (candles_of allTrades interval)
                    /\ Candle.time c
                       = (candleBucketTime intervalMs (timestamp t) / 1000)%Z).
Proof.
  intros allTrades interval Hpos intervalMs.
  pose proof (candles_built_fold intervalMs allTrades) as [Hnd Hall].
  split.
  - intros c Hin.
    apply candles_of_summary in Hin as (k & t1 & rest & Hg & Hc).
    fold intervalMs in Hg.
    exists k, t1, rest. repeat split; try assumption.
    assert (Ht1 : In t1 (candle_group intervalMs k allTrades))
      by (rewrite Hg; now left).
    apply filter_In in Ht1 as [_ Hk1]. apply Z.eqb_eq in Hk1.
    rewrite <- Hk1. unfold candleBucketTime. apply Z_mod_mult.
  - intros t Hin.
    specialize (Hall (candleBucketTime intervalMs (timestamp t))).
    destruct (get _ _) as [c|] eqn:Ec.
    + exists c. split.
      * unfold candles_of. fold intervalMs.
        eapply Permutation_in; [apply sort_candles_perm|].
        unfold values. apply in_map_iff.
        exists (candleBucketTime intervalMs (timestamp t), c).
        split; [reflexivity|]. now apply get_In.
      * destruct Hall as (t1 & rest & _ & ->). reflexivity.
    + exfalso.
      assert (Ht : In t (candle_group intervalMs
                           (candleBucketTime intervalMs (timestamp t))
                           allTrades)).
      { apply filter_In. split; [exact Hin | apply Z.eqb_refl]. }
      rewrite Hall in Ht. exact Ht.
Qed.

Lemma candles_summarise_buckets_witness :
  exists c, In c (candles_of ui_trades 1)
            /\ Candle.time c = 1700000040%Z.
Proof.
  destruct (proj2 (candles_summarise_buckets ui_trades 1 eq_refl)
              {| price := 43100; quantity := 0.25; tradeValue := 10775;
                 timestamp := 1700000050000; isWhale := false |})
    as (c & Hin & Ht).
  - right. left. reflexivity.
  - exists c. split; [exact Hin | exact Ht].
Defined.

Lemma candle_time_injective interval ts1 ts2 :
  (0 < interval)%Z ->
  (candleBucketTime (interval * 60 * 1000) ts1 / 1000
   = candleBucketTime (interval * 60 * 1000) ts2 / 1000)%Z ->
  candleBucketTime (interval * 60 * 1000) ts1
  = candleBucketTime (interval * 60 * 1000) ts2.
Proof.
  intros Hpos. unfold candleBucketTime.
  set (n1 := (ts1 / (interval * 60 * 1000))%Z).
  set (n2 := (ts2 / (interval * 60 * 1000))%Z).
  replace (n1 * (interval * 60 * 1000))%Z with (n1 * (interval * 60) * 1000)%Z
    by ring.
  replace (n2 * (interval * 60 * 1000))%Z with (n2 * (interval * 60) * 1000)%Z
    by ring.
  rewrite !Z.div_mul by lia. intros E. now rewrite E.
Qed.

Lemma candles_of_strict allTrades interval :
  (0 < interval)%Z ->
  StronglySorted Z.lt (map Candle.time (candles_of allTrades interval)).
Proof.
  intros Hpos.
  apply sorted_strict; [apply sort_candles_sorted|].
  unfold candles_of.
  set (intervalMs := (interval * 60 * 1000)%Z).
  pose proof (candles_built_fold intervalMs allTrades) as [Hnd Hall].
  set (m := fold_left (candle_step intervalMs) allTrades []) in *.
  eapply Permutation_NoDup; [apply Permutation_map, sort_candles_perm|].
  unfold values. rewrite map_map.
  apply NoDup_map_on; [now apply NoDup_map_inv in Hnd|].
  intros [k1 c1] [k2 c2] H1 H2 E. cbn in E.
  apply (get_In k1 c1 m Hnd) in H1. apply (get_In k2 c2 m Hnd) in H2.
  pose proof (Hall k1) as A1. rewrite H1 in A1.
  pose proof (Hall k2) as A2. rewrite H2 in A2.
  destruct A1 as (t1 & r1 & G1 & C1). destruct A2 as (t2 & r2 & G2 & C2).
  assert (K1 : candleBucketTime intervalMs (timestamp t1) = k1).
  { assert (In t1 (candle_group intervalMs k1 allTrades)) as Hin
      by (rewrite G1; now left).
    apply filter_In in Hin as [_ Hin]. now apply Z.eqb_eq in Hin. }
  assert (K2 : candleBucketTime intervalMs (timestamp t2) = k2).
  { assert (In t2 (candle_group intervalMs k2 allTrades)) as Hin
      by (rewrite G2; now left).
    apply filter_In in Hin as [_ Hin]. now apply Z.eqb_eq in Hin. }
  assert (Ek : k1 = k2).
  { rewrite <- K1, <- K2. apply candle_time_injective; [exact Hpos|].
    fold intervalMs. rewrite K1, K2. subst c1 c2. exact E. }
  rewrite Ek in H1 |- *. rewrite H1 in H2.
  injection H2 as ->. reflexivity.
Qed.

(** X15: buildCandleData without trades changes nothing; with trades and
    a positive interval it leaves the candles in strictly ascending order
    of time, one candle per bucket that holds a trade and no two with the
    same time, and the price history holds their closes in that order. *)
Theorem candles_strictly_ascending :
  forall (ui : TradingUI),
    (allTrades ui = [] -> buildCandleData ui = ui)
    /\ ((0 < currentInterval ui)%Z -> allTrades ui <> [] ->
        let ui' := buildCandleData ui in
        candleData ui' = candles_of (allTrades ui) (currentInterval ui)
        /\ StronglySorted Z.lt (map Candle.time (candleData ui'))
        /\ priceHistory ui' = map Candle.close (candleData ui')
        /\ allTrades ui' = allTrades ui).
Proof.
  intros ui. unfold buildCandleData. split.
  - now intros ->.
  - intros Hpos Hne. destruct (allTrades ui) as [|t h] eqn:E; [congruence|].
    cbv zeta. cbn [candleData priceHistory allTrades].
    repeat split. now apply candles_of_strict.
Qed.

Lemma candles_strictly_ascending_witness :
  StronglySorted Z.lt
    (map Candle.time
       (candleData (buildCandleData
                      {| allTrades := ui_trades; candleData := [];
                         priceHistory := []; currentInterval := 1 |}))).
Proof.
  apply (proj2 (candles_strictly_ascending
                  {| allTrades := ui_trades; candleData := [];
                     priceHistory := []; currentInterval := 1 |})).
  - reflexivity.
  - discriminate.
Defined.

(** *** The order of numbers *)

Ltac compare_cases :=
  repeat match goal with
  | |- context [Z.compare ?a ?b] => destruct (Z.compare_spec a b)
  | H : context [Z.compare ?a ?b] |- _ => destruct (Z.compare_spec a b)
  | |- context [Pos.compare_cont Eq ?a ?b] =>
      change (Pos.compare_cont Eq a b) with (Pos.compare a b);
      destruct (Pos.compare_spec a b)
  | H : context [Pos.compare_cont Eq ?a ?b] |- _ =>
      change (Pos.compare_cont Eq a b) with (Pos.compare a b) in H;
      destruct (Pos.compare_spec a b)
  end.

Lemma SFleb_trans a b c :
  SFleb a b = true -> SFleb b c = true -> SFleb a c = true.
Proof.
  unfold SFleb, SFcompare.
  destruct a as [[]|[]| |[] ma ea], b as [[]|[]| |[] mb eb],
           c as [[]|[]| |[] mc ec];
    cbn; try discriminate; try reflexivity;
    intros H1 H2; compare_cases; subst; cbn in *;
    try discriminate; try reflexivity; try lia.
Qed.

Lemma SFltb_trans a b c :
  SFltb a b = true -> SFltb b c = true -> SFltb a c = true.
Proof.
  unfold SFltb, SFcompare.
  destruct a as [[]|[]| |[] ma ea], b as [[]|[]| |[] mb eb],
           c as [[]|[]| |[] mc ec];
    cbn; try discriminate; try reflexivity;
    intros H1 H2; compare_cases; subst; cbn in *;
    try discriminate; try reflexivity; try lia.
Qed.

Lemma SFcompare_antisym a b c :
  SFcompare a b = Some c -> SFcompare b a = Some (CompOpp c).
Proof.
  unfold SFcompare.
  destruct a as [[]|[]| |[] ma ea], b as [[]|[]| |[] mb eb];
    cbn; try discriminate; intros H; injection H as <-; try reflexivity;
    f_equal; compare_cases; subst; cbn in *; try reflexivity; try lia.
Qed.

Lemma SFcompare_total a b :
  a <> S754_nan -> b <> S754_nan -> exists c, SFcompare a b = Some c.
Proof.
  unfold SFcompare.
  destruct a as [[]|[]| |[] ma ea], b as [[]|[]| |[] mb eb];
    intros Ha Hb; try congruence; eexists; reflexivity.
Qed.

Lemma not_nan_spec (x : float) : is_nan x = false -> Prim2SF x <> S754_nan.
Proof.
  unfold is_nan. rewrite eqb_spec. intros H E. rewrite E in H. discriminate H.
Qed.

Lemma leb_trans (a b c : float) :
  (a <=? b)%float = true -> (b <=? c)%float = true -> (a <=? c)%float = true.
Proof. rewrite !leb_spec. apply SFleb_trans. Qed.

Lemma ltb_trans (a b c : float) :
  (a <? b)%float = true -> (b <? c)%float = true -> (a <? c)%float = true.
Proof. rewrite !ltb_spec. apply SFltb_trans. Qed.

Lemma ltb_leb (a b : float) :
  (a <? b)%float = true -> (a <=? b)%float = true.
Proof.
  rewrite ltb_spec, leb_spec. unfold SFltb, SFleb.
  now destruct (SFcompare (Prim2SF a) (Prim2SF b)) as [[]|].
Qed.

(** Two numbers that are not NaN and of which none is below the other are
    equal as numbers, so each is at most the other. *)
Lemma not_ltb_leb (a b : float) :
  is_nan a = false -> is_nan b = false ->
  (a <? b)%float = false -> (b <? a)%float = false ->
  (a <=? b)%float = true /\ (b <=? a)%float = true.
Proof.
  intros Ha Hb. apply not_nan_spec in Ha, Hb.
  rewrite !ltb_spec, !leb_spec. unfold SFltb, SFleb.
  destruct (SFcompare_total _ _ Ha Hb) as [c Hc].
  rewrite (SFcompare_antisym _ _ _ Hc), Hc.
  destruct c; cbn; intros; try discriminate; now split.
Qed.

Lemma leb_refl (a : float) : is_nan a = false -> (a <=? a)%float = true.
Proof.
  intros Ha. apply not_nan_spec in Ha. rewrite leb_spec. unfold SFleb.
  destruct (SFcompare_total _ _ Ha Ha) as [c Hc].
  pose proof (SFcompare_antisym _ _ _ Hc) as Hc'. rewrite Hc in Hc' |- *.
  injection Hc' as Hc'. now destruct c.
Qed.

Lemma Math_max_upper (a b : float) :
  is_nan a = false -> is_nan b = false ->
  is_nan (Math_max a b) = false
  /\ (a <=? Math_max a b)%float = true
  /\ (b <=? Math_max a b)%float = true.
Proof.
  intros Ha Hb. unfold Math_max. rewrite Ha, Hb. cbn [orb].
  destruct (a <? b)%float eqn:Hab.
  { repeat split; [exact Hb | now apply ltb_leb | now apply leb_refl]. }
  destruct (b <? a)%float eqn:Hba.
  { repeat split; [exact Ha | now apply leb_refl | now apply ltb_leb]. }
  destruct (not_ltb_leb a b Ha Hb Hab Hba) as [H1 H2].
  destruct (classify a); repeat split;
    solve [assumption | now apply leb_refl].
Qed.

Lemma Math_min_lower (a b : float) :
  is_nan a = false -> is_nan b = false ->
  is_nan (Math_min a b) = false
  /\ (Math_min a b <=? a)%float = true
  /\ (Math_min a b <=? b)%float = true.
Proof.
  intros Ha Hb. unfold Math_min. rewrite Ha, Hb. cbn [orb].
  destruct (a <? b)%float eqn:Hab.
  { repeat split; [exact Ha | now apply leb_refl | now apply ltb_leb]. }
  destruct (b <? a)%float eqn:Hba.
  { repeat split; [exact Hb | now apply ltb_leb | now apply leb_refl]. }
  destruct (not_ltb_leb a b Ha Hb Hab Hba) as [H1 H2].
  destruct (classify a); repeat split;
    solve [assumption | now apply leb_refl].
Qed.

Lemma fold_Math_max_upper (l : list float) :
  forall x, is_nan x = false -> Forall (fun y => is_nan y = false) l ->
    let h := fold_left Math_max l x in
    is_nan h = false
    /\ (x <=? h)%float = true
    /\ Forall (fun y => (y <=? h)%float = true) l.
Proof.
  induction l as [|y l IH]; intros x Hx Hl; cbn [fold_left].
  - repeat split; [exact Hx | now apply leb_refl | constructor].
  - inversion Hl as [|? ? Hy Hl']; subst.
    destruct (Math_max_upper x y Hx Hy) as (Hn & Hxm & Hym).
    destruct (IH (Math_max x y) Hn Hl') as (Hh & Hmh & Hall).
    repeat split; [exact Hh | eapply leb_trans; eassumption |].
    constructor; [eapply leb_trans; eassumption | exact Hall].
Qed.

Lemma fold_Math_min_lower (l : list float) :
  forall x, is_nan x = false -> Forall (fun y => is_nan y = false) l ->
    let h := fold_left Math_min l x in
    is_nan h = false
    /\ (h <=? x)%float = true
    /\ Forall (fun y => (h <=? y)%float = true) l.
Proof.
  induction l as [|y l IH]; intros x Hx Hl; cbn [fold_left].
  - repeat split; [exact Hx | now apply leb_refl | constructor].
  - inversion Hl as [|? ? Hy Hl']; subst.
    destruct (Math_min_lower x y Hx Hy) as (Hn & Hxm & Hym).
    destruct (IH (Math_min x y) Hn Hl') as (Hh & Hmh & Hall).
    repeat split; [exact Hh | eapply leb_trans; eassumption |].
    constructor; [eapply leb_trans; eassumption | exact Hall].
Qed.

Lemma last_In {A} (l : list A) (d : A) : In (last l d) (d :: l).
Proof.
  destruct l as [|x l]; [now left|]. right.
  assert (H : forall (l : list A) x d, In (last (x :: l) d) (x :: l)).
  { clear. induction l as [|y l IH]; intros x d; [now left|].
    right. apply (IH y d). }
  apply H.
Qed.

(** X16: when no trade has a NaN price, every candle is well formed: its
    low is at most its open and its close, and both are at most its
    high. *)
Theorem candles_low_open_close_high :
  forall (allTrades : list TradeRecord) (interval : Z) (c : Candle.t),
    (0 < interval)%Z ->
    Forall (fun t => is_nan (price t) = false) allTrades ->
    In c (candles_of allTrades interval) ->
    (Candle.low c <=? Candle.open c)%float = true
    /\ (Candle.open c <=? Candle.high c)%float = true
    /\ (Candle.low c <=? Candle.close c)%float = true
    /\ (Candle.close c <=? Candle.high c)%float = true
    /\ (Candle.low c <=? Candle.high c)%float = true.
Proof.
  intros allTrades interval c Hpos Hnan Hin.
  apply candles_of_summary in Hin as (k & t1 & rest & Hg & ->).
  assert (Hsub : Forall (fun t => is_nan (price t) = false) (t1 :: rest)).
  { rewrite <- Hg. rewrite Forall_forall in *. intros t Ht.
    apply Hnan. now apply filter_In in Ht. }
  inversion Hsub as [|? ? H1 Hrest]; subst.
  assert (Hprices : Forall (fun y => is_nan y = false) (map price rest)).
  { rewrite Forall_forall in *. intros y Hy.
    apply in_map_iff in Hy as (t & <- & Ht). now apply Hrest. }
  destruct (fold_Math_max_upper (map price rest) (price t1) H1 Hprices)
    as (_ & Hoh & Hallh).
  destruct (fold_Math_min_lower (map price rest) (price t1) H1 Hprices)
    as (_ & Hlo & Halll).
  cbn [candle_summary Candle.low Candle.open Candle.high Candle.close].
  assert (Hclose : (fold_left Math_min (map price rest) (price t1)
                    <=? price (last rest t1))%float = true
                   /\ (price (last rest t1)
                       <=? fold_left Math_max (map price rest) (price t1))%float
                      = true).
  { destruct (last_In rest t1) as [<-|Hl]; [now split|].
    rewrite Forall_forall in Hallh, Halll.
    split; [apply Halll | apply Hallh]; now apply in_map. }
  destruct Hclose as [Hlc Hch].
  repeat split; try assumption.
  eapply leb_trans; eassumption.
Qed.

Lemma candles_low_open_close_high_witness :
  (43000 <=? 43100)%float = true.
Proof.
  refine (proj1 (proj2 (proj2 (proj2
            (candles_low_open_close_high ui_trades 1
               {| Candle.time := 1700000040; Candle.open := 43000;
                  Candle.high := 43100; Candle.low := 43000;
                  Candle.close := 43100; Candle.volume := 0.75 |}
               eq_refl _ _))))).
  - repeat constructor.
  - vm_compute. left. reflexivity.
Defined.

(** *** The indicator lines *)

Lemma In_combine_seq {A} (l : list A) :
  forall (s : nat) (x : A) (i : nat),
    In (x, i) (combine l (seq s (length l))) ->
    (s <= i < s + length l)%nat /\ nth_error l (i - s) = Some x.
Proof.
  induction l as [|y l IH]; intros s x i Hin; [destruct Hin|].
  cbn [length seq combine] in Hin. destruct Hin as [E|Hin].
  - injection E as -> ->. rewrite Nat.sub_diag. cbn. split; [lia | reflexivity].
  - apply IH in Hin as [Hi Hn]. split; [cbn; lia|].
    replace (i - s)%nat with (S (i - S s)) by lia. exact Hn.
Qed.

(** X17: the SMA line drawn over the candles has a point only from the
    20th candle on, and the EMA line only from the 12th; the value of an
    SMA point is the sum of the 20 closes that end at its candle, divided
    by 20. *)
Theorem indicator_lines_start_late :
  forall (candleData : list Candle.t) (t : Z) (v : float),
    (In (t, v) (sma20Data candleData) ->
     exists idx c,
       (19 <= idx)%nat /\ nth_error candleData idx = Some c
       /\ t = Candle.time c
       /\ v = (fold_left PrimFloat.add
                 (skipn (idx - 19) (firstn (idx + 1)
                                      (map Candle.close candleData))) 0
               / of_nat 20)%float)
    /\ (In (t, v) (ema12Data candleData) ->
        exists idx c,
          (11 <= idx)%nat /\ nth_error candleData idx = Some c
          /\ t = Candle.time c).
Proof.
  intros candleData t v. split; intros Hin.
  - unfold sma20Data, indicator_points in Hin.
    apply in_flat_map in Hin as ([c idx] & Hc & Hv). cbn [fst snd] in Hv.
    apply In_combine_seq in Hc as [Hidx Hnth]. rewrite Nat.sub_0_r in Hnth.
    assert (Hlen : length (firstn (idx + 1) (map Candle.close candleData))
                   = (idx + 1)%nat).
    { rewrite length_firstn, length_map. lia. }
    unfold calculateSMA in Hv. rewrite Hlen in Hv.
    destruct (Nat.ltb_spec (idx + 1) 20) as [Hlt|Hge]; [destruct Hv|].
    destruct (truthy _); [|destruct Hv].
    destruct Hv as [E|[]]. injection E as <- <-.
    exists idx, c. repeat split; try assumption; [lia|].
    unfold slice_last, sum. rewrite Hlen.
    replace (idx + 1 - 20)%nat with (idx - 19)%nat by lia. reflexivity.
  - unfold ema12Data, indicator_points in Hin.
    apply in_flat_map in Hin as ([c idx] & Hc & Hv). cbn [fst snd] in Hv.
    apply In_combine_seq in Hc as [Hidx Hnth]. rewrite Nat.sub_0_r in Hnth.
    assert (Hlen : length (firstn (idx + 1) (map Candle.close candleData))
                   = (idx + 1)%nat).
    { rewrite length_firstn, length_map. lia. }
    unfold calculateEMA in Hv. rewrite Hlen in Hv.
    destruct (Nat.ltb_spec (idx + 1) 12) as [Hlt|Hge]; [destruct Hv|].
    cbv zeta in Hv. destruct (truthy _); [|destruct Hv].
    destruct Hv as [E|[]]. injection E as <- _.
    exists idx, c. repeat split; try assumption. lia.
Qed.

Lemma indicator_lines_start_late_witness :
  exists idx c,
    (19 <= idx)%nat /\ nth_error flat_candles idx = Some c
    /\ 1140%Z = Candle.time c.
Proof.
  destruct (proj1 (indicator_lines_start_late flat_candles 1140 43000))
    as (idx & c & H1 & H2 & H3 & _).
  - vm_compute. left. reflexivity.
  - exists idx, c. repeat split; assumption.
Defined.

(** ** The trading UI: the history table *)

(** X18: the history table never shows more than 50 rows, and every row is
    one of the 50 most recent trades and passes the filter of the box: with
    the filter "whale" a whale older than that is not shown. *)
Theorem historyRows_recent :
  forall (filter : string) (allTrades : list TradeRecord),
    let rows := historyRows filter allTrades in
    (length rows <= 50)%nat
    /\ (forall t, In t rows ->
          In t (skipn (length allTrades - 50) allTrades)
          /\ (filter = "whale"%string -> isWhale t = true)
          /\ (filter = "large"%string -> gt (tradeValue t) 100000 = true))
    /\ (filter <> "whale"%string -> filter <> "large"%string ->
        rows = rev (skipn (length allTrades - 50) allTrades)).
Proof.
  intros filter allTrades rows. subst rows. unfold historyRows.
  assert (Hrecent : firstn 50 (rev allTrades)
                    = rev (skipn (length allTrades - 50) allTrades))
    by apply firstn_rev.
  assert (Hlen : (length (firstn 50 (rev allTrades)) <= 50)%nat)
    by apply firstn_le_length.
  assert (Hflen : forall f, (length (List.filter f (firstn 50 (rev allTrades)))
                             <= 50)%nat).
  { intros f. etransitivity; [apply filter_length_le | exact Hlen]. }
  assert (Hin : forall t, In t (firstn 50 (rev allTrades)) ->
                          In t (skipn (length allTrades - 50) allTrades)).
  { intros t Ht. rewrite Hrecent in Ht. now apply in_rev. }
  destruct (String.eqb_spec filter "whale") as [->|Hw].
  - split; [apply Hflen|]. split; [|congruence].
    intros t Ht. apply filter_In in Ht as [Ht Hf].
    split; [now apply Hin|]. split; [auto | discriminate].
  - destruct (String.eqb_spec filter "large") as [->|Hl].
    + split; [apply Hflen|]. split; [|congruence].
      intros t Ht. apply filter_In in Ht as [Ht Hf].
      split; [now apply Hin|]. split; [discriminate | auto].
    + split; [exact Hlen|]. split; [|intros _ _; exact Hrecent].
      intros t Ht. split; [now apply Hin|]. split; congruence.
Qed.

Lemma historyRows_recent_witness :
  historyRows "all" ui_trades = rev (skipn (length ui_trades - 50) ui_trades).
Proof.
  apply (proj2 (proj2 (historyRows_recent "all" ui_trades))); discriminate.
Defined.

(** ** The server: what a feed message broadcasts *)

Section ServerFacts.

Variable toFixed : nat -> float -> string.
Variable toLocaleTimeString : Z -> string.
Variable toISOString : Z -> string.

Lemma handle_message_state d ev chart_now :
  fst (handle_message toFixed toLocaleTimeString toISOString d ev chart_now)
  = on_message d ev.
Proof.
  unfold handle_message, on_message.
  destruct (processTrade d (fst ev) (snd ev)) as [[d' r]|e]; [|reflexivity].
  destruct (broadcastTradeUpdate toFixed toISOString r); [|reflexivity].
  destruct (isWhale r); cbn [option_map];
    [destruct (broadcastWhaleAlert toFixed toISOString r)|]; reflexivity.
Qed.


(** What a record event with a valid time emits, in order. *)
Lemma handle_message_valid d raw tk chart_now :
  valid_time (timestamp_of raw (tick_timestamp tk)) = true ->
  let r := tradeRecord_of raw tk in
  let d' := on_message d (Some raw, tk) in
  exists update alert,
    broadcastTradeUpdate toFixed toISOString r = Some (trade_update update)
    /\ broadcastWhaleAlert toFixed toISOString r = Some (whale_alert alert)
    /\ TradeUpdate.isWhale update = isWhale r
    /\ WhaleAlert.severity alert
       = (if gt (tradeValue r) 1000000 then critical else high)
    /\ snd (handle_message toFixed toLocaleTimeString toISOString d
            (Some raw, tk) chart_now)
       = trade_update update
         :: (if isWhale r then [whale_alert alert] else [])
         ++ (if (length (tradeHistory d') mod 5 =? 0)%nat
             then [chart_data (getChartData toFixed toLocaleTimeString
                                 d' chart_now);
                   metrics_update (getMetrics toFixed d')]
             else []).
Proof.
  intros Hvalid r d'.
  assert (Hbody : processTrade_body d raw tk = (d', r)) by reflexivity.
  assert (Hiso : isoTime toISOString (timestamp r)
                 = Some (toISOString (timestamp r))).
  { unfold isoTime.
    change (timestamp r) with (timestamp_of raw (tick_timestamp tk)).
    now rewrite Hvalid. }
  unfold handle_message. cbn [processTrade fst snd]. rewrite Hbody.
  unfold broadcastTradeUpdate, broadcastWhaleAlert. rewrite Hiso.
  eexists _, _. split; [reflexivity|]. split; [reflexivity|].
  split; [reflexivity|]. split; [reflexivity|].
  destruct (isWhale r); reflexivity.
Qed.

(** X19: a feed message leaves the detector in the state processTrade
    leaves it in, whatever happens while broadcasting; a message on which
    processTrade throws emits nothing; a record with a valid time emits
    its trade_update first, and a whale_alert exactly when its price times
    its quantity is above 500000. *)
Theorem handle_message_alerts_whales :
  forall d ev chart_now,
    let out := handle_message toFixed toLocaleTimeString toISOString
                 d ev chart_now in
    fst out = on_message d ev
    /\ (fst ev = None -> snd out = [])
    /\ (forall raw, fst ev = Some raw ->
          valid_time (timestamp_of raw (tick_timestamp (snd ev))) = true ->
          (exists update, hd_error (snd out) = Some (trade_update update))
          /\ ((exists alert, In (whale_alert alert) (snd out))
              <-> (500000 <? p raw * q raw)%float = true)).
Proof.
  intros d [trade tk] chart_now out. subst out.
  split; [apply handle_message_state|]. split.
  - cbn [fst]. intros ->. reflexivity.
  - cbn [fst snd]. intros raw -> Hvalid.
    destruct (handle_message_valid d raw tk chart_now Hvalid)
      as (update & alert & _ & _ & _ & _ & Hout).
    rewrite Hout. split; [now exists update|].
    change (500000 <? p raw * q raw)%float
      with (isWhale (tradeRecord_of raw tk)).
    destruct (isWhale (tradeRecord_of raw tk)).
    + split; [reflexivity|]. intros _. exists alert. right. now left.
    + split; [|discriminate]. intros [a [Ha|Ha]]; [discriminate Ha|].
      cbn [app] in Ha.
      destruct (_ =? 0)%nat; cbn in Ha;
        repeat (destruct Ha as [Ha|Ha]; [discriminate Ha|]); destruct Ha.
Qed.


(** X21: a record with a valid time whose price times quantity is above
    1000000 is a whale, and its alert goes out with severity critical. *)
Theorem handle_message_critical :
  forall d raw tk chart_now,
    (1000000 <? p raw * q raw)%float = true ->
    valid_time (timestamp_of raw (tick_timestamp tk)) = true ->
    isWhale (tradeRecord_of raw tk) = true
    /\ exists alert,
         In (whale_alert alert)
            (snd (handle_message toFixed toLocaleTimeString toISOString
                    d (Some raw, tk) chart_now))
         /\ WhaleAlert.severity alert = critical.
Proof.
  intros d raw tk chart_now Hbig Hvalid.
  assert (Hwhale : isWhale (tradeRecord_of raw tk) = true).
  { cbn [isWhale tradeRecord_of]. unfold gt, WHALE_THRESHOLD.
    eapply ltb_trans; [|exact Hbig]. reflexivity. }
  split; [exact Hwhale|].
  destruct (handle_message_valid d raw tk chart_now Hvalid)
    as (update & alert & _ & _ & _ & Hsev & Hout).
  exists alert. rewrite Hout, Hwhale. split; [right; now left|].
  rewrite Hsev. cbn [tradeValue tradeRecord_of]. unfold gt. now rewrite Hbig.
Qed.

(** X22: a record whose timestamp no Date can hold is processed like any
    other (stored as the newest record, counted when it is a whale) and
    then nothing at all is broadcast for it: no trade update, no whale
    alert, no chart. *)
Theorem handle_message_invalid_time :
  forall d raw tk chart_now,
    valid_time (timestamp_of raw (tick_timestamp tk)) = false ->
    let res := handle_message toFixed toLocaleTimeString toISOString
                 d (Some raw, tk) chart_now in
    snd res = []
    /\ (forall r0, last (tradeHistory (fst res)) r0 = tradeRecord_of raw tk)
    /\ ((500000 <? p raw * q raw)%float = true ->
        whaleCount (metrics (fst res))
        = (whaleCount (metrics d) + 1)%float).
Proof.
  intros d raw tk chart_now Hinvalid res. subst res.
  assert (Hbody : processTrade_body d raw tk
                  = (on_message d (Some raw, tk), tradeRecord_of raw tk))
    by reflexivity.
  unfold handle_message. cbn [processTrade fst snd]. rewrite Hbody.
  unfold broadcastTradeUpdate, isoTime.
  change (timestamp (tradeRecord_of raw tk))
    with (timestamp_of raw (tick_timestamp tk)).
  rewrite Hinvalid. cbn [fst snd]. split; [reflexivity|]. split.
  - intros r0. rewrite tradeHistory_on_message. apply push_bounded_last.
  - intros Hw. rewrite on_message_record. unfold processTrade_body.
    cbn [fst metrics tradeValue tradeRecord_of]. unfold gt, WHALE_THRESHOLD.
    now rewrite Hw.
Qed.


End ServerFacts.

Lemma handle_message_alerts_whales_witness :
  exists alert,
    In (whale_alert alert)
       (snd (handle_message no_rendering no_label no_label
               (new_WhaleDetector 1700000000000)
               (Some big_whale, sample_ticks) 1700000000000)).
Proof.
  apply (proj2 (proj2 (proj2 (handle_message_alerts_whales
                  no_rendering no_label no_label
                  (new_WhaleDetector 1700000000000)
                  (Some big_whale, sample_ticks) 1700000000000))
           big_whale eq_refl eq_refl)).
  reflexivity.
Defined.


Lemma handle_message_critical_witness :
  isWhale (tradeRecord_of big_whale sample_ticks) = true.
Proof.
  apply (handle_message_critical no_rendering no_label no_label
           (new_WhaleDetector 1700000000000)
           big_whale sample_ticks 1700000000000); reflexivity.
Defined.

Lemma handle_message_invalid_time_witness :
  snd (handle_message no_rendering no_label no_label
         (new_WhaleDetector 1700000000000) (Some far_trade, sample_ticks)
         1700000000000)
  = [].
Proof.
  apply (handle_message_invalid_time no_rendering no_label no_label
           (new_WhaleDetector 1700000000000)
           far_trade sample_ticks 1700000000000).
  reflexivity.
Defined.

(** ** The server: reconnection *)

Lemma run_socket_closes (n : nat) :
  forall a c,
    (a <= MAX_RECONNECT_ATTEMPTS)%nat ->
    fold_left (fun st e =>
                 let r := on_socket_event (fst st) e in
                 (fst r, if snd r then S (snd st) else snd st))
              (repeat socket_close n) (a, c)
    = (Nat.min (a + n) MAX_RECONNECT_ATTEMPTS,
       (c + Nat.min n (MAX_RECONNECT_ATTEMPTS - a))%nat).
Proof.
  induction n as [|n IH]; intros a c Ha; cbn [repeat fold_left].
  - f_equal; lia.
  - cbn [fst snd on_socket_event].
    destruct (Nat.ltb_spec a MAX_RECONNECT_ATTEMPTS) as [Hlt|Hge]; cbn [fst snd].
    + rewrite IH by lia. f_equal; lia.
    + rewrite IH by lia. f_equal; lia.
Qed.

(** X23: the reconnection counter never exceeds MAX_RECONNECT_ATTEMPTS = 5
    whatever the socket reports; an 'open' puts it back to 0; and over [n]
    closes in a row starting from the counter [a], the server schedules
    min n (5 - a) reconnections and then stops trying. *)
Theorem reconnect_attempts_bounded :
  forall (a : nat) (es : list SocketEvent),
    (a <= MAX_RECONNECT_ATTEMPTS)%nat ->
    (fst (run_socket a es) <= MAX_RECONNECT_ATTEMPTS)%nat
    /\ fst (run_socket a (es ++ [socket_open])) = 0%nat
    /\ (forall n, run_socket a (repeat socket_close n)
                  = (Nat.min (a + n) MAX_RECONNECT_ATTEMPTS,
                     Nat.min n (MAX_RECONNECT_ATTEMPTS - a))).
Proof.
  intros a es Ha. split; [|split].
  - unfold run_socket. generalize 0%nat as c. revert a Ha.
    induction es as [|e es IH]; intros a Ha c; [exact Ha|].
    cbn [fold_left fst snd]. destruct e; cbn [on_socket_event fst snd].
    + apply IH. lia.
    + destruct (Nat.ltb_spec a MAX_RECONNECT_ATTEMPTS); cbn [fst snd];
        apply IH; lia.
  - unfold run_socket. rewrite fold_left_app. reflexivity.
  - intros n. unfold run_socket. now rewrite run_socket_closes.
Qed.

Lemma reconnect_attempts_bounded_witness :
  run_socket 0 (repeat socket_close 8) = (5%nat, 5%nat).
Proof.
  rewrite (proj2 (proj2 (reconnect_attempts_bounded 0 [] ltac:(cbv; lia))) 8).
  reflexivity.
Defined.

